(** * SysAid analytics proxy: token cache, aggregators and route handlers

    A shallow embedding of [server.js].  The JavaScript values the program
    manipulates are modelled as follows.

    - Integer-valued numbers (epoch milliseconds, counts, identifiers,
      status and priority codes) are [Z]; a number that may be [NaN] is an
      [option Z] with [None] for [NaN].  All arithmetic on them in the source
      stays far below 2^53, where doubles are exact.
    - The percentages of the active-ticket snapshot are genuine quotients of
      doubles and are modelled with the kernel's binary64 [float].
    - An optional field of an upstream record ([undefined] or [null]) is an
      [option].
    - An object used as a string-keyed counter ([distribution], [adminCounts],
      [userCounts]) is the list of its own properties in creation order,
      read through [Object.prototype] as the language does.
    - An object indexed by numeric identifiers only ([agentMap],
      [endUserMap], [priorityMap]) is a [gmap Z string]: the decimal text of a
      number is never the name of an inherited property. *)

From Stdlib Require Import ZArith List String Ascii Lia Floats Uint63.
From Stdlib Require Import Permutation Sorted.
From stdpp Require Import gmap strings list sorting.

Local Open Scope Z_scope.

(** ** A fragment of JavaScript *)

Module Js.

(** A number that is an integer or [NaN]. *)
Definition number := option Z.

Definition NaN : number := None.

Definition sub (a b : number) : number :=
  match a, b with
  | Some x, Some y => Some (x - y)
  | _, _ => NaN
  end.

Definition add (a b : number) : number :=
  match a, b with
  | Some x, Some y => Some (x + y)
  | _, _ => NaN
  end.

(** [a < b] on numbers; any comparison with [NaN] is false. *)
Definition lt (a b : number) : bool :=
  match a, b with
  | Some x, Some y => x <? y
  | _, _ => false
  end.

(** Truthiness of a possibly absent number and of a possibly absent string:
    [undefined], [null], [0] and the empty string are falsy. *)
Definition truthyNum (n : option Z) : bool :=
  match n with
  | Some z => negb (z =? 0)
  | None => false
  end.

Definition truthyStr (s : option string) : bool :=
  match s with
  | Some t => negb (String.eqb t "")
  | None => false
  end.

(** A possibly absent string where a string is expected: as a property key
    [undefined] reads [undefined], and [new Date(undefined)] is not a date. *)
Definition propertyKey (s : option string) : string := default "undefined" s.

(** [null] inside a template literal. *)
Definition template (s : option string) : string := default "null" s.

(** The values a counter object holds: a number, or the string that [+]
    produces once one operand is not a number. *)
Inductive value :=
| Num (n : Z)
| Str (s : string).

(** An ordinary object: its own enumerable properties, oldest first. *)
Definition object := list (string * value).

(** The properties every object literal inherits from [Object.prototype],
    each with the text [String] gives for its value.  All but [__proto__]
    are writable data properties holding built-in functions; [__proto__] is
    an accessor whose getter returns [Object.prototype] itself. *)
Definition ObjectPrototype : list (string * string) :=
  [ ("constructor", "function Object() { [native code] }");
    ("__defineGetter__", "function __defineGetter__() { [native code] }");
    ("__defineSetter__", "function __defineSetter__() { [native code] }");
    ("hasOwnProperty", "function hasOwnProperty() { [native code] }");
    ("__lookupGetter__", "function __lookupGetter__() { [native code] }");
    ("__lookupSetter__", "function __lookupSetter__() { [native code] }");
    ("isPrototypeOf", "function isPrototypeOf() { [native code] }");
    ("propertyIsEnumerable", "function propertyIsEnumerable() { [native code] }");
    ("toString", "function toString() { [native code] }");
    ("valueOf", "function valueOf() { [native code] }");
    ("__proto__", "[object Object]");
    ("toLocaleString", "function toLocaleString() { [native code] }") ].

Fixpoint assoc {A : Type} (l : list (string * A)) (k : string) : option A :=
  match l with
  | [] => None
  | (k', v) :: l' => if String.eqb k' k then Some v else assoc l' k
  end.

Definition inherited (k : string) : bool :=
  match assoc ObjectPrototype k with
  | Some _ => true
  | None => false
  end.

(** The result of reading [o[k]]. *)
Inductive reference :=
| Own (v : value)
| Inherited (text : string)
| Undefined.

(** [o[k]]: an own property first, then the prototype. *)
Definition get (o : object) (k : string) : reference :=
  match assoc o k with
  | Some v => Own v
  | None =>
      match assoc ObjectPrototype k with
      | Some text => Inherited text
      | None => Undefined
      end
  end.

Definition truthy (r : reference) : bool :=
  match r with
  | Own (Num n) => negb (n =? 0)
  | Own (Str s) => negb (String.eqb s "")
  | Inherited _ => true
  | Undefined => false
  end.

(** [(r || 0) + 1]: addition on a number, concatenation on anything else. *)
Definition orZeroPlusOne (r : reference) : value :=
  if truthy r then
    match r with
    | Own (Num n) => Num (n + 1)
    | Own (Str s) => Str (s +:+ "1")
    | Inherited text => Str (text +:+ "1")
    | Undefined => Num 1
    end
  else Num (0 + 1).

Fixpoint update (o : object) (k : string) (v : value) : object :=
  match o with
  | [] => [(k, v)]
  | (k', v') :: o' =>
      if String.eqb k' k then (k', v) :: o' else (k', v') :: update o' k v
  end.

(** [o[k] = v] for a number or a string [v].  Assigning to [__proto__] runs
    the inherited setter, which ignores a value that is not an object; any
    other key is updated in place or created last. *)
Definition set (o : object) (k : string) (v : value) : object :=
  if String.eqb k "__proto__" then o else update o k v.

(** ** Property order *)

Definition digit (c : ascii) : option N :=
  let n := N_of_ascii c in
  if ((48 <=? n) && (n <=? 57))%N then Some (n - 48)%N else None.

Fixpoint digits (s : string) (acc : N) : option N :=
  match s with
  | EmptyString => Some acc
  | String c s' =>
      match digit c with
      | Some d => digits s' (10 * acc + d)%N
      | None => None
      end
  end.

(** An array index is the canonical decimal text of an integer in
    [0, 2^32 - 2]. *)
Definition arrayIndex (s : string) : option N :=
  match s with
  | EmptyString => None
  | String "0" EmptyString => Some 0%N
  | String "0" _ => None
  | _ =>
      match digits s 0 with
      | Some n => if (n <? 2 ^ 32 - 1)%N then Some n else None
      | None => None
      end
  end.

Definition isArrayIndex (s : string) : bool :=
  match arrayIndex s with
  | Some _ => true
  | None => false
  end.

(** ** [Array.prototype.sort]

    The sort is stable: [x] moves behind [y] only when [compareFn x y] is
    positive, and a [NaN] result counts as [0].  Where [compareFn] is not a
    consistent ordering the language leaves the order to the
    implementation, of which this is one. *)
Section Sort.
Context {A : Type} (compareFn : A -> A -> number).

Definition positive (n : number) : bool :=
  match n with
  | Some z => 0 <? z
  | None => false
  end.

Fixpoint insertSorted (x : A) (l : list A) : list A :=
  match l with
  | [] => [x]
  | y :: l' =>
      if positive (compareFn x y) then y :: insertSorted x l'
      else x :: y :: l'
  end.

Definition sort (l : list A) : list A := foldr insertSorted [] l.
End Sort.

Definition indexOf (e : string * value) : number :=
  match arrayIndex (fst e) with
  | Some n => Some (Z.of_N n)
  | None => NaN
  end.

(** [Object.entries(o)]: array-index keys in ascending order, then the
    other keys in creation order. *)
Definition entries (o : object) : list (string * value) :=
  sort (fun a b => sub (indexOf a) (indexOf b))
       (List.filter (fun e => isArrayIndex (fst e)) o)
  ++ List.filter (fun e => negb (isArrayIndex (fst e))) o.

(** [Number(v)].  A string converts to [NaN] unless it is a numeric
    literal; the strings the aggregators store all start with
    [function] (lemma [tally_text] below). *)
Definition toNumber (v : value) : number :=
  match v with
  | Num n => Some n
  | Str _ => NaN
  end.

(** The sum of the values of an object, as numbers. *)
Definition total (o : object) : number :=
  foldr (fun e acc => add (toNumber (snd e)) acc) (Some 0) o.

(** [Number(r || d)] for a numeric default [d]. *)
Definition orDefault (r : reference) (d : Z) : number :=
  if truthy r then
    match r with
    | Own v => toNumber v
    | Inherited _ => NaN
    | Undefined => NaN
    end
  else Some d.

End Js.

(** ** Upstream data *)

(** A service record, with the fields the program reads. *)
Record TicketRecord := {
  status : option Z;
  priority : option Z;
  assignee : option Z;
  requestUser : option Z;
  insertTime : option Z;
  updateTime : option Z;
  dueDate : option string
}.

(** An entry of a distribution: [{ name, value }]. *)
Module ChartEntry.
Record t := mk { name : string; value : Js.value }.

(** The own properties of the object literal [{ name, value: count }]. *)
Definition properties (e : t) : Js.object :=
  [ ("name", Js.Str (name e)); ("value", value e) ].
End ChartEntry.

(** An entry of a ranking: [{ name, count }]. *)
Module RankEntry.
Record t := mk { name : string; count : Js.value }.

(** The own properties of the object literal [{ name, count }]. *)
Definition properties (e : t) : Js.object :=
  [ ("name", Js.Str (name e)); ("count", count e) ].
End RankEntry.

(** ** Status filter *)

Definition isClosed (r : TicketRecord) : bool :=
  match status r with
  | Some s => s =? 34
  | None => false
  end.

Definition filterTicketsByStatus
    (records : list TicketRecord) (statusFilter : option string)
    : list TicketRecord :=
  if negb (Js.truthyStr statusFilter) then records
  else if bool_decide (statusFilter = Some "all") then records
  else if bool_decide (statusFilter = Some "open") then
    List.filter (fun r => negb (isClosed r)) records
  else if bool_decide (statusFilter = Some "closed") then
    List.filter (fun r => isClosed r) records
  else records.

(** ** Aggregators *)

(** [map[id]] for an object keyed by numeric identifiers. *)
Definition byId (directory : gmap Z string) (id : option Z) : option string :=
  match id with
  | Some z => directory !! z
  | None => None
  end.

(** [distribution[k] = (distribution[k] || 0) + 1] *)
Definition increment (distribution : Js.object) (k : string) : Js.object :=
  Js.set distribution k (Js.orZeroPlusOne (Js.get distribution k)).

Definition processAssigneeDistribution
    (records : list TicketRecord) (agentMap : gmap Z string)
    : list ChartEntry.t :=
  let distribution :=
    foldl (fun distribution record =>
             let assigneeId := assignee record in
             let assigneeName :=
               if Js.truthyNum assigneeId
                  && Js.truthyStr (byId agentMap assigneeId)
               then Js.propertyKey (byId agentMap assigneeId)
               else "Unassigned" in
             increment distribution assigneeName)
          [] records in
  Js.sort (fun a b => Js.sub (Js.toNumber (ChartEntry.value b))
                             (Js.toNumber (ChartEntry.value a)))
          (map (fun '(name, count) => ChartEntry.mk name count)
               (Js.entries distribution)).

Definition priorityMap : gmap Z string :=
  {[ 1 := "Very High"; 2 := "High"; 3 := "Normal"; 4 := "Low";
     5 := "Very Low" ]}.

Definition order : Js.object :=
  [ ("Very High", Js.Num 1); ("High", Js.Num 2); ("Normal", Js.Num 3);
    ("Low", Js.Num 4); ("Very Low", Js.Num 5) ].

Definition processPriorityDistribution (records : list TicketRecord)
    : list ChartEntry.t :=
  let distribution :=
    foldl (fun distribution record =>
             let priority :=
               if Js.truthyStr (byId priorityMap (priority record))
               then Js.propertyKey (byId priorityMap (priority record))
               else "Unknown" in
             increment distribution priority)
          [] records in
  Js.sort (fun a b =>
             Js.sub (Js.orDefault (Js.get order (ChartEntry.name a)) 999)
                    (Js.orDefault (Js.get order (ChartEntry.name b)) 999))
          (map (fun '(name, count) => ChartEntry.mk name count)
               (Js.entries distribution)).

Definition processTopAdministrators
    (records : list TicketRecord) (agentMap : gmap Z string)
    : list RankEntry.t :=
  let adminCounts :=
    foldl (fun adminCounts record =>
             if Js.truthyNum (assignee record)
                && Js.truthyStr (byId agentMap (assignee record))
             then
               let adminName :=
                 Js.propertyKey (byId agentMap (assignee record)) in
               increment adminCounts adminName
             else adminCounts)
          [] records in
  take 4
    (Js.sort (fun a b => Js.sub (Js.toNumber (RankEntry.count b))
                                (Js.toNumber (RankEntry.count a)))
             (map (fun '(name, count) => RankEntry.mk name count)
                  (Js.entries adminCounts))).

Definition processTopEndUsers
    (records : list TicketRecord) (endUserMap : gmap Z string)
    : list RankEntry.t :=
  let userCounts :=
    foldl (fun userCounts record =>
             if Js.truthyNum (requestUser record)
                && Js.truthyStr (byId endUserMap (requestUser record))
             then
               let userName :=
                 Js.propertyKey (byId endUserMap (requestUser record)) in
               increment userCounts userName
             else userCounts)
          [] records in
  take 5
    (Js.sort (fun a b => Js.sub (Js.toNumber (RankEntry.count b))
                                (Js.toNumber (RankEntry.count a)))
             (map (fun '(name, count) => RankEntry.mk name count)
                  (Js.entries userCounts))).


(** ** Token cache and upstream client

    The process-wide state is the token cache.  A request handler runs
    against a [World]: the cache, the reading of [Date.now()], and the
    requests sent upstream so far.  The upstream service is an environment
    that answers each request from the history of requests; an awaited call
    moves the clock forward by the reply's latency.  Handlers are followed
    one at a time: what another request does to the cache while this one
    awaits is outside the model. *)

Record Config := {
  baseUrl : string;
  accountId : string;
  clientId : string;
  clientSecret : string
}.

Record TokenCache := {
  token : option string;
  expiresAt : option Z
}.

(** [{ token: null, expiresAt: null }] *)
Definition emptyCache : TokenCache := {| token := None; expiresAt := None |}.

(** The body of a successful token acquisition. *)
Record TokenGrant := {
  grantToken : string;
  expiresIn : Z
}.

(** A body returned by a resource endpoint: a bare array of service records,
    or anything else, kept as its text. *)
Inductive Data :=
| DArray (records : list TicketRecord)
| DOther (text : string).

(** What [axios] throws: a message, and the upstream response when there was
    one (a status outside 2xx), with its body if any. *)
Record ErrorResponse := {
  httpStatus : Z;
  errorData : option Data
}.

Record AxiosError := {
  message : string;
  response : option ErrorResponse
}.

Inductive Request :=
| Post (url : string) (bodyClientId bodyClientSecret : string)
       (headerAccountId : string)
| Get (url : string) (authorization : string).

Record Reply (A : Type) := {
  latency : Z;
  result : AxiosError + A
}.
Arguments latency {A} _.
Arguments result {A} _.

Record Upstream := {
  accessTokens : list Request -> Reply TokenGrant;
  resource : list Request -> Reply Data
}.

Record World := {
  tokenCache : TokenCache;
  clock : Z;
  sent : list Request
}.

(** A computation that may throw. *)
Definition M (A : Type) : Type := World -> (AxiosError + A) * World.

Definition ret {A : Type} (a : A) : M A := fun w => (inr a, w).

Definition bind {A B : Type} (m : M A) (k : A -> M B) : M B :=
  fun w =>
    match m w with
    | (inr a, w') => k a w'
    | (inl e, w') => (inl e, w')
    end.

Notation "x <- m ;; k" := (bind m (fun x => k))
  (at level 100, m at next level, right associativity).
Notation "m ;;; k" := (bind m (fun _ => k))
  (at level 100, right associativity).

(** [Date.now()] *)
Definition Date_now : M Z := fun w => (inr (clock w), w).

Definition readCache : M TokenCache := fun w => (inr (tokenCache w), w).

Definition writeCache (f : TokenCache -> TokenCache) : M unit :=
  fun w =>
    (inr tt, {| tokenCache := f (tokenCache w); clock := clock w;
                sent := sent w |}).

Section Server.

Variable SYSAID_CONFIG : Config.
Variable upstream : Upstream.

(** [new Date(s).getTime()], [NaN] for a string that is not a date. *)
Variable Date_parse : string -> Js.number.

Definition getTime (date : option string) : Js.number :=
  match date with
  | Some s => Date_parse s
  | None => Js.NaN
  end.

(** [await axios.post(url, { clientId, clientSecret }, { headers })] *)
Definition axios_post (url : string) (cid secret account : string)
    : M TokenGrant :=
  fun w =>
    let sent' := sent w ++ [Post url cid secret account] in
    let reply := accessTokens upstream sent' in
    (result reply,
     {| tokenCache := tokenCache w; clock := clock w + latency reply;
        sent := sent' |}).

(** [await axios.get(url, { headers })] *)
Definition axios_get (url : string) (auth : string) : M Data :=
  fun w =>
    let sent' := sent w ++ [Get url auth] in
    let reply := resource upstream sent' in
    (result reply,
     {| tokenCache := tokenCache w; clock := clock w + latency reply;
        sent := sent' |}).

(** [tokenCache.token && Date.now() < tokenCache.expiresAt]; a [null]
    expiry compares as [0]. *)
Definition cacheValid (cache : TokenCache) (now : Z) : bool :=
  Js.truthyStr (token cache)
  && Js.lt (Some now) (Some (default 0 (expiresAt cache))).

Definition getAccessToken : M (option string) :=
  cache <- readCache ;;
  now <- Date_now ;;
  if cacheValid cache now then
    ret (token cache)
  else
    response <-
      axios_post (baseUrl SYSAID_CONFIG +:+ "/connect/v1/access-tokens")
                 (clientId SYSAID_CONFIG) (clientSecret SYSAID_CONFIG)
                 (accountId SYSAID_CONFIG) ;;
    writeCache (fun c => {| token := Some (grantToken response);
                            expiresAt := expiresAt c |}) ;;;
    now <- Date_now ;;
    writeCache (fun c => {| token := token c;
                            expiresAt :=
                              Some (now + (expiresIn response - 300) * 1000) |}) ;;;
    cache <- readCache ;;
    ret (token cache).

Definition callConnect (endpoint : string) : M Data :=
  token <- getAccessToken ;;
  axios_get (baseUrl SYSAID_CONFIG +:+ "/connect/v1" +:+ endpoint)
            ("Bearer " +:+ Js.template token).

(** ** Route handlers *)

(** A response body.  A property whose value is [undefined] is left out of
    the JSON text, so an absent [details] is [None]. *)
Inductive Body :=
| Health (status : string) (tokenCached : bool)
| Success (data : Data)
| Active (totalActive : Z)
         (overduePercent openMoreThan5Days noDueDate : float)
| Failure (success : bool) (error : string) (details : option Data).

Record HttpResponse := {
  statusCode : Z;
  body : Body
}.

Definition Handler : Type := World -> HttpResponse * World.

(** [res.json(body)] *)
Definition json (b : Body) : HttpResponse := {| statusCode := 200; body := b |}.

(** [res.status(code).json(body)] *)
Definition status_json (code : Z) (b : Body) : HttpResponse :=
  {| statusCode := code; body := b |}.

(** [try { ... } catch (e) { ... }] around a handler body. *)
Definition try_catch (block : M HttpResponse)
    (handler : AxiosError -> HttpResponse) : Handler :=
  fun w =>
    match block w with
    | (inr r, w') => (r, w')
    | (inl e, w') => (handler e, w')
    end.

(** [e.response?.data] *)
Definition responseData (e : AxiosError) : option Data :=
  match response e with
  | Some r => errorData r
  | None => None
  end.

(** [app.get('/api/health')] *)
Definition health : Handler :=
  fun w =>
    (json (Health "ok" (Js.truthyStr (token (tokenCache w)))), w).

(** [app.get('/api/tickets')] *)
Definition tickets (limit offset : string) : Handler :=
  try_catch
    (records <- callConnect ("/service-records?limit=" +:+ limit
                             +:+ "&offset=" +:+ offset) ;;
     ret (json (Success records)))
    (fun e => status_json 500 (Failure false (message e) (responseData e))).

Definition toFloat (n : nat) : float :=
  PrimFloat.of_uint63 (Uint63.of_Z (Z.of_nat n)).

(** [app.get('/api/tickets/active')] *)
Definition ticketsActive : Handler :=
  try_catch
    (response <- callConnect "/service-records/search?limit=100" ;;
     let records := match response with DArray rs => rs | DOther _ => [] end in
     let activeRecords := List.filter (fun r => negb (isClosed r)) records in
     now <- Date_now ;;
     let fiveDaysAgo := now - 5 * 24 * 60 * 60 * 1000 in
     let overdue :=
       length (List.filter
                 (fun r => Js.truthyStr (dueDate r)
                           && Js.lt (getTime (dueDate r)) (Some now))
                 activeRecords) in
     let openMoreThan5Days :=
       length (List.filter
                 (fun r => Js.truthyNum (insertTime r)
                           && Js.lt (insertTime r) (Some fiveDaysAgo))
                 activeRecords) in
     let noDueDate :=
       length (List.filter (fun r => negb (Js.truthyStr (dueDate r)))
                 activeRecords) in
     ret (json (Active (Z.of_nat (length activeRecords))
                  (if (0 <? length activeRecords)%nat
                   then (toFloat overdue / toFloat (length activeRecords)
                         * 100)%float
                   else 0%float)
                  (if (0 <? length activeRecords)%nat
                   then (toFloat openMoreThan5Days
                         / toFloat (length activeRecords) * 100)%float
                   else 0%float)
                  (if (0 <? length activeRecords)%nat
                   then (toFloat noDueDate / toFloat (length activeRecords)
                         * 100)%float
                   else 0%float))))
    (fun e => status_json 500 (Failure false (message e) (responseData e))).

(** [s.replace(pattern, replacement)] for a string pattern: the first
    occurrence only. *)
Fixpoint replace (pattern replacement s : string) : string :=
  if String.prefix pattern s then
    replacement +:+ String.substring (String.length pattern)
                     (String.length s - String.length pattern) s
  else
    match s with
    | EmptyString => EmptyString
    | String c s' => String c (replace pattern replacement s')
    end.

(** [app.get('/api/connect/*')] *)
Definition connect (path : string) : Handler :=
  try_catch
    (let endpoint := replace "/api/connect" "" path in
     data <- callConnect endpoint ;;
     ret (json (Success data)))
    (fun e => status_json 500 (Failure false (message e) None)).

End Server.

(** ** Notions used by the statements *)

(** The world [w] with the clock read at [t]. *)
Definition atTime (t : Z) (w : World) : World :=
  {| tokenCache := tokenCache w; clock := t; sent := sent w |}.

(** The one request [getAccessToken] sends. *)
Definition tokenRequest (cfg : Config) : Request :=
  Post (baseUrl cfg +:+ "/connect/v1/access-tokens")
       (clientId cfg) (clientSecret cfg) (accountId cfg).

(** The catch clause shared by the analytics, tickets, action-items, weekly
    and active-tickets handlers. *)
Definition failureWithDetails (e : AxiosError) : HttpResponse :=
  status_json 500 (Failure false (message e) (responseData e)).

(** The occurrences of [k] in [ks]. *)
Definition only (k : string) (ks : list string) : list string :=
  List.filter (String.eqb k) ks.

(** The value under a key that is not inherited: absent, or the number of
    increments. *)
Definition counted (n : Z) : option Js.value :=
  if n =? 0 then None else Some (Js.Num n).

(** An entry as a key and its value. *)
Definition chartPair (e : ChartEntry.t) : string * Js.value :=
  (ChartEntry.name e, ChartEntry.value e).

Definition rankPair (e : RankEntry.t) : string * Js.value :=
  (RankEntry.name e, RankEntry.count e).

(** The [value] of the entry called [k] in a distribution, and the [count]
    of the entry called [k] in a ranking. *)
Definition chartValue (k : string) (l : list ChartEntry.t) : option Js.value :=
  Js.assoc (chartPair <$> l) k.

Definition rankCount (k : string) (l : list RankEntry.t) : option Js.value :=
  Js.assoc (rankPair <$> l) k.

(** The bucket a record is counted under by [processAssigneeDistribution]. *)
Definition assigneeName (agentMap : gmap Z string) (r : TicketRecord) : string :=
  if Js.truthyNum (assignee r) && Js.truthyStr (byId agentMap (assignee r))
  then Js.propertyKey (byId agentMap (assignee r))
  else "Unassigned".

(** Whether a ranking counts the record with identifier [id] at all. *)
Definition resolves (directory : gmap Z string) (id : option Z) : bool :=
  Js.truthyNum id && Js.truthyStr (byId directory id).

(** The number of [records] that [name] puts under [k]. *)
Definition bucketSize (name : TicketRecord -> string) (k : string)
    (records : list TicketRecord) : Z :=
  Z.of_nat (length (List.filter (fun r => String.eqb k (name r)) records)).

(** The sum of the [value] fields of a distribution. *)
Definition sumOfValues (l : list ChartEntry.t) : Js.number :=
  Js.total (chartPair <$> l).


(** The name a ranking counts a record under, given the field it groups
    by. *)
Definition rankedName (directory : gmap Z string)
    (field : TicketRecord -> option Z) (r : TicketRecord) : string :=
  Js.propertyKey (byId directory (field r)).

Definition rankedNames (directory : gmap Z string)
    (field : TicketRecord -> option Z) (records : list TicketRecord)
    : list string :=
  rankedName directory field
    <$> List.filter (fun r => resolves directory (field r)) records.

(** The count of an entry as an integer. *)
Definition countOf (e : RankEntry.t) : Z :=
  match RankEntry.count e with
  | Js.Num n => n
  | Js.Str _ => 0
  end.

(** What a ranking is, given the names of the records it counts, when none
    of them is a name [Object.prototype] defines: the entries have distinct
    names, each with the number of records under that name as a positive
    integer count, in descending order of count. *)
Definition isRanking (names : list string) (ranking : list RankEntry.t)
    : Prop :=
  NoDup (RankEntry.name <$> ranking)
  /\ (forall k, rankCount k ranking
                = counted (Z.of_nat (length (only k names))))
  /\ Forall (fun e => exists n, RankEntry.count e = Js.Num n) ranking
  /\ StronglySorted (fun a b => countOf b <= countOf a) ranking.

(** The rank the comparator of [processPriorityDistribution] gives a name. *)
Definition rankOf (name : string) : Z :=
  match Js.orDefault (Js.get order name) 999 with
  | Some z => z
  | None => 0
  end.

(** A number, or a string that starts with [function]. *)
Definition sourceText (v : Js.value) : Prop :=
  match v with
  | Js.Num _ => True
  | Js.Str s => String.prefix "function" s = true
  end.

(** ** The specification's wording *)

(** The snapshot as the specification words it, over the non-closed
    records at time [now]. *)
Module SnapshotSpec.
Section Snapshot.
Variable Date_parse : string -> Js.number.
Variable now : Z.

(** A due date is present (a non-empty date string) and in the past. *)
Definition overdue (r : TicketRecord) : bool :=
  match dueDate r with
  | Some s =>
      negb (String.eqb s "")
      && match Date_parse s with
         | Some t => t <? now
         | None => false
         end
  | None => false
  end.

(** [insertTime < now - 5 days] *)
Definition openMoreThan5Days (r : TicketRecord) : bool :=
  match insertTime r with
  | Some t => t <? now - 5 * 86400000
  | None => false
  end.

(** As above, for an [insertTime] other than [0]. *)
Definition openMoreThan5DaysNonZero (r : TicketRecord) : bool :=
  match insertTime r with
  | Some t => negb (t =? 0) && (t <? now - 5 * 86400000)
  | None => false
  end.

(** No due date at all: absent, or the empty string. *)
Definition noDueDate (r : TicketRecord) : bool :=
  match dueDate r with
  | Some s => String.eqb s ""
  | None => true
  end.

(** The fraction of [active] that satisfies [p], times 100, and [0] for an
    empty [active]. *)
Definition percent (p : TicketRecord -> bool) (active : list TicketRecord)
    : float :=
  match active with
  | [] => 0%float
  | _ :: _ =>
      (toFloat (length (List.filter p active)) / toFloat (length active)
       * 100)%float
  end.

Definition active (d : Data) : list TicketRecord :=
  match d with
  | DArray records =>
      List.filter (fun r => negb (bool_decide (status r = Some 34))) records
  | DOther _ => []
  end.

End Snapshot.
End SnapshotSpec.

(** The priority distribution as the specification words it. *)
Module PrioritySpec.

(** Codes 1 to 5 map to the labels; anything else, or nothing, to
    Unknown. *)
Definition priorityLabel (p : option Z) : string :=
  match p with
  | Some z =>
      if z =? 1 then "Very High"
      else if z =? 2 then "High"
      else if z =? 3 then "Normal"
      else if z =? 4 then "Low"
      else if z =? 5 then "Very Low"
      else "Unknown"
  | None => "Unknown"
  end.

(** The fixed rank order. *)
Definition rankOrder : list string :=
  [ "Very High"; "High"; "Normal"; "Low"; "Very Low"; "Unknown" ].

(** One entry per label that occurs, in rank order, with the number of
    records under it. *)
Definition priorityDistribution (records : list TicketRecord)
    : list ChartEntry.t :=
  omap (fun label =>
          let n := bucketSize (fun r => priorityLabel (priority r)) label
                     records in
          if n =? 0 then None else Some (ChartEntry.mk label (Js.Num n)))
       rankOrder.

End PrioritySpec.

(** ** Sample data *)

Definition demoConfig : Config :=
  {| baseUrl := "https://itsm.example"; accountId := "acme";
     clientId := "id"; clientSecret := "secret" |}.

(** The error of a request refused with 404 and a body. *)
Definition notFound : AxiosError :=
  {| message := "Request failed with status code 404";
     response := Some {| httpStatus := 404;
                         errorData := Some (DOther "no such resource") |} |}.

(** Grants a one-hour token after 40 ms and serves the given body after
    25 ms. *)
Definition serving (d : Data) : Upstream :=
  {| accessTokens := fun _ =>
       {| latency := 40;
          result := inr {| grantToken := "tok-1"; expiresIn := 3600 |} |};
     resource := fun _ => {| latency := 25; result := inr d |} |}.

(** Grants a token, then answers every resource request with 404. *)
Definition refusingResources : Upstream :=
  {| accessTokens := fun _ =>
       {| latency := 40;
          result := inr {| grantToken := "tok-1"; expiresIn := 3600 |} |};
     resource := fun _ => {| latency := 25; result := inl notFound |} |}.

(** Refuses the token request itself. *)
Definition refusingTokens : Upstream :=
  {| accessTokens := fun _ =>
       {| latency := 40;
          result := inl {| message := "Request failed with status code 401";
                           response := Some {| httpStatus := 401;
                                               errorData := Some (DOther "bad credentials") |} |} |};
     resource := fun _ => {| latency := 25; result := inr (DArray []) |} |}.

(** A world with the empty cache, and one with a cached token. *)
Definition coldStart (t : Z) : World :=
  {| tokenCache := emptyCache; clock := t; sent := [] |}.

Definition warm (tok : string) (expiry t : Z) : World :=
  {| tokenCache := {| token := Some tok; expiresAt := Some expiry |};
     clock := t; sent := [] |}.

(** Records that differ in one field. *)
Definition openSince (t : Z) : TicketRecord :=
  {| status := Some 1; priority := Some 3; assignee := None;
     requestUser := None; insertTime := Some t; updateTime := Some t;
     dueDate := None |}.

(** A date parser that accepts nothing. *)
Definition noDates (_ : string) : Js.number := Js.NaN.

Definition assignedTo (id : option Z) : TicketRecord :=
  {| status := Some 1; priority := Some 3; assignee := id;
     requestUser := None; insertTime := None; updateTime := None;
     dueDate := None |}.

Definition withPriority (p : option Z) : TicketRecord :=
  {| status := Some 1; priority := p; assignee := None; requestUser := None;
     insertTime := None; updateTime := None; dueDate := None |}.

Definition requestedBy (id : option Z) : TicketRecord :=
  {| status := Some 1; priority := Some 3; assignee := Some 7;
     requestUser := id; insertTime := None; updateTime := None;
     dueDate := None |}.

Definition twoAgents : gmap Z string := {[ 7 := "Ada Lovelace"; 8 := "Alan Turing" ]}.

Definition oneAgent (name : string) : gmap Z string := {[ 7 := name ]}.

Definition inheritedAgents : gmap Z string :=
  {[ 1 := "constructor"; 2 := "toString"; 3 := "valueOf";
     4 := "hasOwnProperty"; 5 := "Grace Hopper" ]}.

Definition sixUsers : gmap Z string :=
  {[ 1 := "Ann"; 2 := "Bob"; 3 := "Cy"; 4 := "Di"; 5 := "Ed"; 6 := "Flo" ]}.

(** ** Further notions *)

(** The request [callConnect] sends for [endpoint] with the token [tok]. *)
Definition resourceRequest (cfg : Config) (endpoint tok : string) : Request :=
  Get (baseUrl cfg +:+ "/connect/v1" +:+ endpoint) ("Bearer " +:+ tok).

(** The two fields of the cache are both [null] or both set. *)
Definition paired (cache : TokenCache) : Prop :=
  (token cache = None /\ expiresAt cache = None)
  \/ (exists s e, token cache = Some s /\ expiresAt cache = Some e).

(** ** Strings

    A character is a UTF-16 code unit below 256.  Of the characters
    [trim] removes, these are the tab, line feed, vertical tab, form feed,
    carriage return, space and no-break space. *)

Module JsString.

Definition isWhiteSpace (c : ascii) : bool :=
  let n := N_of_ascii c in
  ((9 <=? n) && (n <=? 13) || (n =? 32) || (n =? 160))%N.

(** [s.trimStart()] *)
Fixpoint trimStart (s : string) : string :=
  match s with
  | EmptyString => EmptyString
  | String c s' => if isWhiteSpace c then trimStart s' else s
  end.

(** [s.trimEnd()] *)
Fixpoint trimEnd (s : string) : string :=
  match s with
  | EmptyString => EmptyString
  | String c s' =>
      match trimEnd s' with
      | EmptyString => if isWhiteSpace c then EmptyString else String c EmptyString
      | t => String c t
      end
  end.

(** [s.trim()] *)
Definition trim (s : string) : string := trimEnd (trimStart s).

(** [s.startsWith(pattern)] *)
Definition startsWith (s pattern : string) : bool := String.prefix pattern s.

(** [s.includes(pattern)] *)
Fixpoint includes (s pattern : string) : bool :=
  String.prefix pattern s
  || match s with
     | EmptyString => false
     | String _ s' => includes s' pattern
     end.

(** [s.split(separator)] for a separator of one character: the pieces
    between the separators, of which there is always at least one. *)
Fixpoint split (separator : ascii) (s : string) : list string :=
  match s with
  | EmptyString => [EmptyString]
  | String c s' =>
      if Ascii.eqb c separator then EmptyString :: split separator s'
      else
        match split separator s' with
        | piece :: pieces => String c piece :: pieces
        | [] => [String c EmptyString]
        end
  end.

(** [array.includes(s)] on an array of strings. *)
Definition arrayIncludes (array : list string) (s : string) : bool :=
  existsb (String.eqb s) array.

End JsString.

(** ** Cross-origin policy *)

(** What the origin callback passes on: [callback(null, true)] or
    [callback(new Error(message))]. *)
Inductive CorsDecision :=
| Allowed
| Refused (message : string).

(** [corsOptions.origin], given [process.env.ALLOWED_ORIGINS] and the
    request's origin. *)
Definition corsOptions_origin
    (ALLOWED_ORIGINS : option string) (origin : option string)
    : CorsDecision :=
  if negb (Js.truthyStr origin) then Allowed
  else
    let allowed :=
      map JsString.trim
          (JsString.split ","
             (if Js.truthyStr ALLOWED_ORIGINS
              then Js.propertyKey ALLOWED_ORIGINS
              else "")) in
    let origin := Js.propertyKey origin in
    if JsString.includes origin ".sharepoint.com"
       || JsString.startsWith origin "http://localhost"
       || JsString.startsWith origin "http://127.0.0.1"
       || JsString.arrayIncludes allowed origin
    then Allowed
    else Refused "Not allowed by CORS".


(** A string that neither starts nor ends with white space. *)
Definition trimmed (s : string) : Prop := JsString.trim s = s.

(** A string in which the character [c] does not occur. *)
Definition lacks (c : ascii) (s : string) : Prop :=
  Forall (fun c' => c' <> c) (list_ascii_of_string s).

(** ** Analytics overview

    What the handler of [/api/analytics/overview] computes once its three
    fetches have returned: the part of the handler after the [await]. *)

(** A field that holds a name: missing, [null], or a string. *)
Inductive Field :=
| Missing
| Null
| Text (s : string).

(** A field inside a template literal. *)
Definition interpolate (f : Field) : string :=
  match f with
  | Missing => "undefined"
  | Null => "null"
  | Text s => s
  end.

(** An agent or an end user.  An entry stored under an [id] that is not a
    number is never read, the lookups being by numeric identifier. *)
Module Person.
Record t := mk { id : option Z; firstName : Field; lastName : Field }.
End Person.

(** The body of a directory endpoint: an object with a [data] array, or a
    body without [data] (a bare array, an empty object, a string).  A [null]
    body, on which the handler throws, is left out. *)
Inductive People :=
| Listed (data : list Person.t)
| Unlisted.

(** [`${p.firstName} ${p.lastName}`.trim()] *)
Definition fullName (p : Person.t) : string :=
  JsString.trim (interpolate (Person.firstName p) +:+ " "
                 +:+ interpolate (Person.lastName p)).

Module Summary.
Record t := mk { total : Z; open : Z; closed : Z }.
End Summary.

Module Analytics.
Record t := mk {
  assigneeDistribution : list ChartEntry.t;
  priorityDistribution : list ChartEntry.t;
  topAdministrators : list RankEntry.t;
  topEndUsers : list RankEntry.t;
  summary : Summary.t
}.
End Analytics.

(** The [analytics] object, from the [status] query parameter and the three
    bodies. *)
Definition analyticsOverview (status : option string)
    (serviceRecords : Data) (agents endUsers : People) : Analytics.t :=
  let status := default "open" status in
  let allRecords :=
    match serviceRecords with DArray rs => rs | DOther _ => [] end in
  let records := filterTicketsByStatus allRecords (Some status) in
  let agentsList := match agents with Listed l => l | Unlisted => [] end in
  let endUsersList := match endUsers with Listed l => l | Unlisted => [] end in
  let agentMap :=
    foldl (fun agentMap agent =>
             match Person.id agent with
             | Some id => <[id := fullName agent]> agentMap
             | None => agentMap
             end)
          (∅ : gmap Z string) agentsList in
  let endUserMap :=
    foldl (fun endUserMap user =>
             match Person.id user with
             | Some id => <[id := fullName user]> endUserMap
             | None => endUserMap
             end)
          (∅ : gmap Z string) endUsersList in
  Analytics.mk
    (processAssigneeDistribution records agentMap)
    (processPriorityDistribution records)
    (processTopAdministrators records agentMap)
    (processTopEndUsers records endUserMap)
    (Summary.mk
       (Z.of_nat (length records))
       (Z.of_nat (length (List.filter (fun r => negb (isClosed r)) allRecords)))
       (Z.of_nat (length (List.filter (fun r => isClosed r) allRecords)))).

(** The lookup map the handler builds from a directory list. *)
Definition directoryOf (people : list Person.t) : gmap Z string :=
  foldl (fun m p =>
           match Person.id p with
           | Some id => <[id := fullName p]> m
           | None => m
           end)
        (∅ : gmap Z string) people.

Definition withStatus (s : Z) : TicketRecord :=
  {| status := Some s; priority := Some 3; assignee := None;
     requestUser := None; insertTime := None; updateTime := None;
     dueDate := None |}.

(** * Properties *)

(** ** Token cache *)

Lemma cacheValid_spec cache now :
  cacheValid cache now = true <->
  exists s, token cache = Some s /\ s <> "" /\ now < default 0 (expiresAt cache).
Proof.
  unfold cacheValid, Js.truthyStr, Js.lt.
  destruct (token cache) as [s|]; simpl.
  - rewrite andb_true_iff, negb_true_iff, String.eqb_neq, Z.ltb_lt.
    split.
    + intros [Hs Hlt]. exists s. auto.
    + intros (s' & Heq & Hs & Hlt). inversion Heq; subst. auto.
  - split; [discriminate|]. intros (s & Heq & _). discriminate.
Qed.

Lemma getAccessToken_hit cfg up w :
  cacheValid (tokenCache w) (clock w) = true ->
  getAccessToken cfg up w = (inr (token (tokenCache w)), w).
Proof.
  intros Hv. unfold getAccessToken, bind, readCache, Date_now, ret.
  rewrite Hv. reflexivity.
Qed.

Lemma getAccessToken_miss_ok cfg up w g :
  cacheValid (tokenCache w) (clock w) = false ->
  result (accessTokens up (sent w ++ [tokenRequest cfg])) = inr g ->
  getAccessToken cfg up w =
    (inr (Some (grantToken g)),
     let t := clock w
              + latency (accessTokens up (sent w ++ [tokenRequest cfg])) in
     {| tokenCache :=
          {| token := Some (grantToken g);
             expiresAt := Some (t + (expiresIn g - 300) * 1000) |};
        clock := t;
        sent := sent w ++ [tokenRequest cfg] |}).
Proof.
  intros Hv Hr.
  unfold getAccessToken, bind, readCache, Date_now, ret, axios_post, writeCache.
  rewrite Hv. fold (tokenRequest cfg). rewrite Hr. reflexivity.
Qed.

Lemma getAccessToken_miss_fail cfg up w e :
  cacheValid (tokenCache w) (clock w) = false ->
  result (accessTokens up (sent w ++ [tokenRequest cfg])) = inl e ->
  getAccessToken cfg up w =
    (inl e,
     {| tokenCache := tokenCache w;
        clock := clock w
                 + latency (accessTokens up (sent w ++ [tokenRequest cfg]));
        sent := sent w ++ [tokenRequest cfg] |}).
Proof.
  intros Hv Hr.
  unfold getAccessToken, bind, readCache, Date_now, ret, axios_post, writeCache.
  rewrite Hv. fold (tokenRequest cfg). rewrite Hr. reflexivity.
Qed.

(** C1, as stated, fails when the stored token string is empty: with the
    expiry still ahead, [getAccessToken] does not return the stored string
    and leave the world alone, because the program tests the token for
    truthiness. *)
Lemma getAccessToken_empty_token_not_reused :
  getAccessToken demoConfig (serving (DArray [])) (warm "" 5000 1000)
  <> (inr (Some ""), warm "" 5000 1000).
Proof.
  intros H.
  apply (f_equal (fun p => length (sent (snd p)))) in H.
  vm_compute in H. discriminate H.
Qed.

Example getAccessToken_empty_token_run :
  let w' := snd (getAccessToken demoConfig (serving (DArray []))
                   (warm "" 5000 1000)) in
  cacheValid (tokenCache (warm "" 5000 1000)) 1000 = false
  /\ sent w' = [tokenRequest demoConfig]
  /\ tokenCache w' = {| token := Some "tok-1"; expiresAt := Some 3301040 |}.
Proof. repeat split. Qed.

(** C1, amended.  In a cache state that stores a non-empty token string and
    whose expiry is strictly after the current time, [getAccessToken]
    returns the stored token and leaves the world as it was: the cache is
    unchanged and no request has been sent.  The same holds for a further
    call at any later time still before the expiry, so the token is reused
    with no second acquisition throughout its validity window. *)
Theorem getAccessToken_reuses_valid_token cfg up w s e :
  token (tokenCache w) = Some s ->
  s <> "" ->
  expiresAt (tokenCache w) = Some e ->
  clock w < e ->
  getAccessToken cfg up w = (inr (Some s), w)
  /\ forall t, t < e ->
       let w1 := atTime t (snd (getAccessToken cfg up w)) in
       getAccessToken cfg up w1 = (inr (Some s), w1)
       /\ tokenCache w1 = tokenCache w
       /\ sent w1 = sent w.
Proof.
  intros Htok Hs Hexp Hlt.
  assert (Hhit : forall w', tokenCache w' = tokenCache w -> clock w' < e ->
                   getAccessToken cfg up w' = (inr (Some s), w')).
  { intros w' Hc Hl. rewrite getAccessToken_hit.
    - rewrite Hc, Htok. reflexivity.
    - apply cacheValid_spec. exists s. rewrite Hc, Htok, Hexp. auto. }
  split.
  - apply Hhit; auto.
  - intros t Ht. rewrite (Hhit w) by auto. simpl. auto.
Qed.

Lemma getAccessToken_reuses_valid_token_witness :
  getAccessToken demoConfig refusingTokens (warm "tok-0" 5000 4999)
  = (inr (Some "tok-0"), warm "tok-0" 5000 4999).
Proof.
  destruct (getAccessToken_reuses_valid_token demoConfig refusingTokens
              (warm "tok-0" 5000 4999) "tok-0" 5000) as [H _];
    [reflexivity | discriminate | reflexivity | simpl; lia | exact H].
Defined.

(** C2. A successful acquisition whose response arrives at time [t] and
    reports a lifetime of [L] seconds returns the new token and stores it
    with expiry exactly [t + (L - 300) * 1000] milliseconds.  From then on
    the cache is valid only strictly before that instant, and a call at that
    instant or later sends a new token request. *)
Theorem getAccessToken_expiry_margin cfg up w g :
  cacheValid (tokenCache w) (clock w) = false ->
  result (accessTokens up (sent w ++ [tokenRequest cfg])) = inr g ->
  let w' := snd (getAccessToken cfg up w) in
  let t := clock w' in
  let L := expiresIn g in
  fst (getAccessToken cfg up w) = inr (Some (grantToken g))
  /\ tokenCache w' = {| token := Some (grantToken g);
                        expiresAt := Some (t + (L - 300) * 1000) |}
  /\ (forall now, cacheValid (tokenCache w') now = true ->
                  now < t + (L - 300) * 1000)
  /\ (forall now, t + (L - 300) * 1000 <= now ->
        sent (snd (getAccessToken cfg up (atTime now w')))
        = sent w' ++ [tokenRequest cfg]).
Proof.
  intros Hv Hr. rewrite (getAccessToken_miss_ok cfg up w g Hv Hr). simpl.
  repeat split.
  - intros now Hvalid. apply cacheValid_spec in Hvalid.
    destruct Hvalid as (s & _ & _ & Hlt). exact Hlt.
  - intros now Hle.
    set (w' := atTime now _).
    assert (Hmiss : cacheValid (tokenCache w') (clock w') = false).
    { apply not_true_is_false. intros Hvalid.
      apply cacheValid_spec in Hvalid.
      destruct Hvalid as (s & _ & _ & Hlt). simpl in Hlt. lia. }
    unfold getAccessToken, bind, readCache, Date_now, ret, axios_post,
      writeCache.
    rewrite Hmiss. fold (tokenRequest cfg).
    destruct (result (accessTokens up (sent w' ++ [tokenRequest cfg])));
      reflexivity.
Qed.

Lemma getAccessToken_expiry_margin_witness :
  tokenCache (snd (getAccessToken demoConfig (serving (DArray []))
                     (coldStart 1000)))
  = {| token := Some "tok-1"; expiresAt := Some (1040 + (3600 - 300) * 1000) |}.
Proof.
  destruct (getAccessToken_expiry_margin demoConfig (serving (DArray []))
              (coldStart 1000)
              {| grantToken := "tok-1"; expiresIn := 3600 |})
    as (_ & H & _); [reflexivity | reflexivity | exact H].
Defined.

(** C3. When the cache holds no valid token and the token request fails,
    [getAccessToken] throws that very failure, the cache is exactly what it
    was (neither field written), and exactly one request has been sent: no
    retry. *)
Theorem getAccessToken_failure_leaves_cache cfg up w e :
  cacheValid (tokenCache w) (clock w) = false ->
  result (accessTokens up (sent w ++ [tokenRequest cfg])) = inl e ->
  fst (getAccessToken cfg up w) = inl e
  /\ tokenCache (snd (getAccessToken cfg up w)) = tokenCache w
  /\ sent (snd (getAccessToken cfg up w)) = sent w ++ [tokenRequest cfg].
Proof.
  intros Hv Hr. rewrite (getAccessToken_miss_fail cfg up w e Hv Hr).
  simpl. auto.
Qed.

Lemma getAccessToken_failure_leaves_cache_witness :
  tokenCache (snd (getAccessToken demoConfig refusingTokens
                     (warm "tok-0" 5000 5000)))
  = {| token := Some "tok-0"; expiresAt := Some 5000 |}.
Proof.
  destruct (getAccessToken_failure_leaves_cache demoConfig refusingTokens
              (warm "tok-0" 5000 5000)
              {| message := "Request failed with status code 401";
                 response := Some {| httpStatus := 401;
                                     errorData := Some (DOther "bad credentials") |} |})
    as (_ & H & _); [reflexivity | reflexivity | exact H].
Defined.

(** ** Health *)

(** C10, as stated, fails when the stored token string is empty: a string
    is stored, yet [!!tokenCache.token] is false and [tokenCached] is not
    reported true. *)
Lemma health_empty_token_not_cached :
  fst (health (warm "" 5000 1000)) <> json (Health "ok" true).
Proof. intros H. vm_compute in H. discriminate H. Qed.

Example health_empty_token_run :
  token (tokenCache (warm "" 5000 1000)) = Some ""
  /\ fst (health (warm "" 5000 1000)) = json (Health "ok" false).
Proof. split; reflexivity. Qed.

(** C10, amended.  [/api/health] answers 200 with [tokenCached] true exactly
    when the cache stores a non-empty token string, whatever the expiry and
    the time, and leaves the world as it was.  So a token whose expiry has
    passed, which [getAccessToken] no longer accepts, is still reported as
    cached. *)
Theorem health_reports_presence
    (tok : option string) (expiry : option Z) (t : Z) (l : list Request) :
  let w := {| tokenCache := {| token := tok; expiresAt := expiry |};
              clock := t; sent := l |} in
  exists b,
    health w = (json (Health "ok" b), w)
    /\ (b = true <-> exists s, tok = Some s /\ s <> "")
    /\ (forall s e, tok = Some s -> s <> "" -> expiry = Some e -> e <= t ->
          b = true /\ cacheValid (tokenCache w) (clock w) = false).
Proof.
  intros w. exists (Js.truthyStr tok). split; [reflexivity|].
  assert (Hiff : Js.truthyStr tok = true <-> exists s, tok = Some s /\ s <> "").
  { unfold Js.truthyStr. destruct tok as [s|].
    - rewrite negb_true_iff, String.eqb_neq. split.
      + intros Hs. exists s. auto.
      + intros (s' & Heq & Hs). inversion Heq; subst. exact Hs.
    - split; [discriminate|]. intros (s & Heq & _). discriminate. }
  split; [exact Hiff|].
  intros s e Htok Hs Hexp Hle. split.
  - apply Hiff. exists s. auto.
  - apply not_true_is_false. intros Hv. apply cacheValid_spec in Hv.
    destruct Hv as (s' & _ & _ & Hlt). subst w. simpl in Hlt.
    rewrite Hexp in Hlt. simpl in Hlt. lia.
Qed.

Example health_expired_token :
  fst (health (warm "tok-0" 5000 9000)) = json (Health "ok" true)
  /\ cacheValid (tokenCache (warm "tok-0" 5000 9000)) 9000 = false.
Proof. split; reflexivity. Qed.

Example health_cold : fst (health (coldStart 9000)) = json (Health "ok" false).
Proof. reflexivity. Qed.

(** ** Error envelope *)

Lemma try_catch_throws block handler w e w' :
  block w = (inl e, w') -> try_catch block handler w = (handler e, w').
Proof. intros H. unfold try_catch. rewrite H. reflexivity. Qed.

Lemma bind_throws {A B : Type} (m : M A) (k : A -> M B) w e w' :
  m w = (inl e, w') -> bind m k w = (inl e, w').
Proof. intros H. unfold bind. rewrite H. reflexivity. Qed.

Lemma bind_returns {A B : Type} (m : M A) (k : A -> M B) w a w' :
  m w = (inr a, w') -> bind m k w = k a w'.
Proof. intros H. unfold bind. rewrite H. reflexivity. Qed.

(** Whatever makes [callConnect] throw, be it the token request or the
    resource request, [/api/tickets] and [/api/tickets/active] answer 500
    with the message and the upstream body. *)
Lemma tickets_failure cfg up limit offset w e w' :
  callConnect cfg up
    ("/service-records?limit=" +:+ limit +:+ "&offset=" +:+ offset) w
  = (inl e, w') ->
  tickets cfg up limit offset w = (failureWithDetails e, w').
Proof.
  intros H. unfold tickets. apply try_catch_throws.
  apply bind_throws. exact H.
Qed.

Lemma ticketsActive_failure cfg up parse w e w' :
  callConnect cfg up "/service-records/search?limit=100" w = (inl e, w') ->
  ticketsActive cfg up parse w = (failureWithDetails e, w').
Proof.
  intros H. unfold ticketsActive. apply try_catch_throws.
  apply bind_throws. exact H.
Qed.

(** The passthrough handler answers 500 with the message only. *)
Lemma connect_failure cfg up path w e w' :
  callConnect cfg up (replace "/api/connect" "" path) w = (inl e, w') ->
  connect cfg up path w
  = (status_json 500 (Failure false (message e) None), w').
Proof.
  intros H. unfold connect.
  rewrite (try_catch_throws _ _ w e w'); [reflexivity|].
  apply bind_throws. exact H.
Qed.

(** C4, at a failing request.  The upstream answers the resource request
    with 404 and a body.  [/api/tickets] reports the body under [details];
    [/api/connect/*] answers 500 with [success: false] and the message but no
    [details], although the error carries the same body. *)
Theorem connect_failure_drops_details :
  let w := coldStart 1000 in
  fst (connect demoConfig refusingResources "/api/connect/agents" w)
  = status_json 500
      (Failure false "Request failed with status code 404" None)
  /\ responseData notFound = Some (DOther "no such resource")
  /\ fst (tickets demoConfig refusingResources "100" "0" w)
     = status_json 500
         (Failure false "Request failed with status code 404"
            (Some (DOther "no such resource"))).
Proof. repeat split. Qed.

(** ** Active-ticket snapshot *)

Lemma isClosed_spec r : isClosed r = bool_decide (status r = Some 34).
Proof.
  unfold isClosed. destruct (status r) as [s|].
  - destruct (Z.eqb_spec s 34) as [->|Hne].
    + symmetry. apply bool_decide_eq_true. reflexivity.
    + symmetry. apply bool_decide_eq_false. congruence.
  - symmetry. apply bool_decide_eq_false. discriminate.
Qed.

Lemma filter_ext_length {A : Type} (p q : A -> bool) (l : list A) :
  (forall x, p x = q x) ->
  length (List.filter p l) = length (List.filter q l).
Proof. intros H. rewrite (List.filter_ext p q H). reflexivity. Qed.

Lemma guarded_percent (p : TicketRecord -> bool) (l : list TicketRecord) :
  (if (0 <? length l)%nat
   then (toFloat (length (List.filter p l)) / toFloat (length l) * 100)%float
   else 0%float)
  = SnapshotSpec.percent p l.
Proof. destruct l; reflexivity. Qed.

Lemma overdue_spec parse now r :
  Js.truthyStr (dueDate r) && Js.lt (getTime parse (dueDate r)) (Some now)
  = SnapshotSpec.overdue parse now r.
Proof.
  unfold SnapshotSpec.overdue, Js.truthyStr, Js.lt.
  destruct (dueDate r) as [s|]; [|reflexivity]. simpl.
  destruct (parse s); reflexivity.
Qed.

Lemma openMoreThan5Days_spec now r :
  Js.truthyNum (insertTime r)
  && Js.lt (insertTime r) (Some (now - 5 * 24 * 60 * 60 * 1000))
  = SnapshotSpec.openMoreThan5DaysNonZero now r.
Proof.
  unfold SnapshotSpec.openMoreThan5DaysNonZero, Js.truthyNum, Js.lt.
  destruct (insertTime r) as [t|]; [|reflexivity].
  replace (now - 5 * 24 * 60 * 60 * 1000) with (now - 5 * 86400000) by lia.
  reflexivity.
Qed.

Lemma noDueDate_spec r :
  negb (Js.truthyStr (dueDate r)) = SnapshotSpec.noDueDate r.
Proof.
  unfold SnapshotSpec.noDueDate, Js.truthyStr.
  destruct (dueDate r) as [s|]; [|reflexivity].
  apply negb_involutive.
Qed.

(** C9, as stated, fails on one active record whose [insertTime] is [0]:
    [0] is earlier than five days before the request, so the stated
    fraction is 100, but the handler tests [r.insertTime] for truthiness
    first and reports 0. *)
Lemma ticketsActive_skips_zero_insertTime :
  fst (ticketsActive demoConfig (serving (DArray [openSince 0])) noDates
         (coldStart 1700000000000))
  <> json (Active 1
             (SnapshotSpec.percent (SnapshotSpec.overdue noDates 1700000000065)
                [openSince 0])
             (SnapshotSpec.percent (SnapshotSpec.openMoreThan5Days 1700000000065)
                [openSince 0])
             (SnapshotSpec.percent SnapshotSpec.noDueDate [openSince 0])).
Proof.
  intros H.
  apply (f_equal (fun r => match body r with
                           | Active _ _ b _ => PrimFloat.eqb b 0
                           | _ => false
                           end)) in H.
  vm_compute in H. discriminate H.
Qed.

Example ticketsActive_zero_insertTime_run :
  fst (ticketsActive demoConfig (serving (DArray [openSince 0])) noDates
         (coldStart 1700000000000))
  = json (Active 1 0 0 100)
  /\ SnapshotSpec.percent (SnapshotSpec.openMoreThan5Days 1700000000065) [openSince 0]
     = 100%float.
Proof. split; reflexivity. Qed.

(** C9, amended.  When the record search succeeds with body [d] at time
    [now], [/api/tickets/active] answers 200 with the number of non-closed
    records and three percentages over them: records with a due date present
    and in the past, records with a non-zero [insertTime] earlier than
    [now - 5 days], and records with no due date; each is the count divided
    by the active count, times 100, and each is exactly [0], not [NaN],
    when there is no active record. *)
Theorem ticketsActive_snapshot cfg up parse w d w' :
  callConnect cfg up "/service-records/search?limit=100" w = (inr d, w') ->
  let now := clock w' in
  let active := SnapshotSpec.active d in
  ticketsActive cfg up parse w
  = (json (Active (Z.of_nat (length active))
             (SnapshotSpec.percent (SnapshotSpec.overdue parse now) active)
             (SnapshotSpec.percent (SnapshotSpec.openMoreThan5DaysNonZero now) active)
             (SnapshotSpec.percent SnapshotSpec.noDueDate active)),
     w')
  /\ (active = [] ->
      SnapshotSpec.percent (SnapshotSpec.overdue parse now) active = 0%float
      /\ SnapshotSpec.percent (SnapshotSpec.openMoreThan5DaysNonZero now) active = 0%float
      /\ SnapshotSpec.percent SnapshotSpec.noDueDate active = 0%float
      /\ PrimFloat.is_nan 0 = false).
Proof.
  intros H now active. split.
  - unfold ticketsActive, try_catch.
    rewrite (bind_returns _ _ w d w' H).
    unfold bind, Date_now, ret.
    rewrite !guarded_percent.
    set (act := List.filter _ _).
    assert (Hact : act = active).
    { subst act active. unfold SnapshotSpec.active. destruct d; [|reflexivity].
      apply List.filter_ext. intros r. rewrite isClosed_spec. reflexivity. }
    rewrite Hact. fold now.
    unfold SnapshotSpec.percent.
    rewrite (filter_ext_length _ _ active (overdue_spec parse now)).
    rewrite (filter_ext_length _ _ active (openMoreThan5Days_spec now)).
    rewrite (filter_ext_length _ _ active noDueDate_spec).
    reflexivity.
  - intros ->. repeat split.
Qed.

Lemma ticketsActive_snapshot_witness :
  fst (ticketsActive demoConfig (serving (DArray [])) noDates (coldStart 1000))
  = json (Active 0 0 0 0).
Proof.
  destruct (ticketsActive_snapshot demoConfig (serving (DArray [])) noDates
              (coldStart 1000) (DArray [])
              (snd (callConnect demoConfig (serving (DArray []))
                      "/service-records/search?limit=100" (coldStart 1000))))
    as [H _]; [reflexivity | rewrite H; reflexivity].
Defined.

(** ** Facts about the JavaScript fragment *)

Section SortFacts.
Context {A : Type} (compareFn : A -> A -> Js.number).

Lemma insertSorted_perm x l : Js.insertSorted compareFn x l ≡ₚ x :: l.
Proof.
  induction l as [|y l IH]; simpl; [reflexivity|].
  destruct (Js.positive (compareFn x y)); [|reflexivity].
  rewrite IH. apply perm_swap.
Qed.

Lemma sort_perm l : Js.sort compareFn l ≡ₚ l.
Proof.
  induction l as [|x l IH]; simpl; [reflexivity|].
  rewrite insertSorted_perm, IH. reflexivity.
Qed.

(** On a list where [compareFn] is the difference of a key, the result is
    in ascending key order. *)
Variable key : A -> Z.

Lemma insertSorted_sorted x l :
  (forall y, y ∈ l -> compareFn x y = Some (key x - key y)) ->
  StronglySorted (fun a b => key a <= key b) l ->
  StronglySorted (fun a b => key a <= key b) (Js.insertSorted compareFn x l).
Proof.
  induction l as [|y l IH]; intros Hcmp Hs; simpl.
  - repeat constructor.
  - apply StronglySorted_inv in Hs. destruct Hs as [Hs Hy].
    rewrite (Hcmp y) by left. simpl.
    destruct (Z.ltb_spec 0 (key x - key y)) as [Hlt|Hge].
    + constructor.
      * apply IH; [|exact Hs]. intros z Hz. apply Hcmp. right. exact Hz.
      * rewrite insertSorted_perm. constructor; [lia|exact Hy].
    + constructor.
      * constructor; assumption.
      * constructor; [lia|].
        eapply Forall_impl; [exact Hy|]. simpl. intros z Hz. lia.
Qed.

Lemma sort_sorted l :
  (forall x y, x ∈ l -> y ∈ l -> compareFn x y = Some (key x - key y)) ->
  StronglySorted (fun a b => key a <= key b) (Js.sort compareFn l).
Proof.
  induction l as [|x l IH]; intros Hcmp; simpl.
  - constructor.
  - apply insertSorted_sorted.
    + intros y Hy. rewrite sort_perm in Hy.
      apply Hcmp; [left|right; exact Hy].
    + apply IH. intros a b Ha Hb. apply Hcmp; right; assumption.
Qed.

End SortFacts.

Section ObjectFacts.
Implicit Types (o : Js.object) (k : string) (v : Js.value).

Lemma assoc_update_eq o k v : Js.assoc (Js.update o k v) k = Some v.
Proof.
  induction o as [|[k' v'] o IH]; simpl.
  - rewrite String.eqb_refl. reflexivity.
  - destruct (String.eqb_spec k' k) as [->|Hne]; simpl.
    + rewrite String.eqb_refl. reflexivity.
    + apply String.eqb_neq in Hne. rewrite Hne. exact IH.
Qed.

Lemma assoc_update_ne o k k' v :
  k' <> k -> Js.assoc (Js.update o k' v) k = Js.assoc o k.
Proof.
  intros Hne. induction o as [|[k0 v0] o IH]; simpl.
  - apply String.eqb_neq in Hne. rewrite Hne. reflexivity.
  - destruct (String.eqb_spec k0 k') as [->|Hne0]; simpl.
    + apply String.eqb_neq in Hne. rewrite Hne. reflexivity.
    + rewrite IH. reflexivity.
Qed.

Lemma keys_update o k v :
  (Js.update o k v).*1 = if bool_decide (k ∈ o.*1) then o.*1 else o.*1 ++ [k].
Proof.
  induction o as [|[k0 v0] o IH].
  - reflexivity.
  - cbn [Js.update fmap list_fmap fst].
    destruct (String.eqb_spec k0 k) as [->|Hne].
    + cbn [fmap list_fmap fst].
      rewrite bool_decide_eq_true_2; [reflexivity|]. left.
    + cbn [fmap list_fmap fst]. rewrite IH.
      destruct (bool_decide_reflect (k ∈ o.*1)) as [Hin|Hnin].
      * rewrite bool_decide_eq_true_2; [reflexivity|]. right. exact Hin.
      * rewrite bool_decide_eq_false_2; [reflexivity|].
        intros Hin. apply elem_of_cons in Hin. destruct Hin; congruence.
Qed.

Lemma NoDup_keys_update o k v : NoDup o.*1 -> NoDup (Js.update o k v).*1.
Proof.
  intros Hnd. rewrite keys_update.
  destruct (bool_decide_reflect (k ∈ o.*1)) as [Hin|Hnin]; [exact Hnd|].
  apply NoDup_app. split; [exact Hnd|]. split.
  - intros x Hx Hx'. apply list_elem_of_singleton in Hx'. subst. auto.
  - apply NoDup_singleton.
Qed.

Lemma NoDup_keys_increment o k : NoDup o.*1 -> NoDup (increment o k).*1.
Proof.
  intros Hnd. unfold increment, Js.set.
  destruct (String.eqb k "__proto__"); [exact Hnd|].
  apply NoDup_keys_update. exact Hnd.
Qed.

Lemma NoDup_keys_tally (ks : list string) o :
  NoDup o.*1 -> NoDup (foldl increment o ks).*1.
Proof.
  revert o. induction ks as [|k ks IH]; intros o Hnd; simpl; [exact Hnd|].
  apply IH, NoDup_keys_increment, Hnd.
Qed.

(** Counting under one key does not touch another. *)
Lemma assoc_increment_ne o k k' :
  k' <> k -> Js.assoc (increment o k') k = Js.assoc o k.
Proof.
  intros Hne. unfold increment, Js.set.
  destruct (String.eqb k' "__proto__"); [reflexivity|].
  apply assoc_update_ne. exact Hne.
Qed.

(** What ends up under [k] depends on what was under [k] only. *)
Lemma assoc_increment_eq o1 o2 k :
  Js.assoc o1 k = Js.assoc o2 k ->
  Js.assoc (increment o1 k) k = Js.assoc (increment o2 k) k.
Proof.
  intros H. unfold increment, Js.set, Js.get. rewrite H.
  destruct (String.eqb k "__proto__"); [exact H|].
  rewrite !assoc_update_eq. reflexivity.
Qed.

Lemma assoc_tally_only (ks : list string) o1 o2 k :
  Js.assoc o1 k = Js.assoc o2 k ->
  Js.assoc (foldl increment o1 ks) k
  = Js.assoc (foldl increment o2 (only k ks)) k.
Proof.
  revert o1 o2. induction ks as [|k' ks IH]; intros o1 o2 H; simpl.
  - exact H.
  - destruct (String.eqb_spec k k') as [<-|Hne]; simpl.
    + apply IH, assoc_increment_eq, H.
    + apply IH. rewrite assoc_increment_ne by congruence. exact H.
Qed.

Lemma assoc_increment_counted o k n :
  Js.inherited k = false -> 0 <= n ->
  Js.assoc o k = counted n ->
  Js.assoc (increment o k) k = counted (n + 1).
Proof.
  intros Hk Hn Ho. unfold increment, Js.set, Js.get. rewrite Ho.
  assert (Hp : String.eqb k "__proto__" = false).
  { apply String.eqb_neq. intros ->. discriminate Hk. }
  rewrite Hp, assoc_update_eq.
  unfold Js.inherited in Hk. unfold counted.
  destruct (Z.eqb_spec n 0) as [->|Hn0].
  - destruct (Js.assoc Js.ObjectPrototype k); [discriminate|]. reflexivity.
  - unfold Js.orZeroPlusOne, Js.truthy.
    apply Z.eqb_neq in Hn0. rewrite Hn0. simpl.
    destruct (Z.eqb_spec (n + 1) 0); [lia|]. reflexivity.
Qed.

Lemma assoc_tally_counted (ks : list string) o k n :
  Js.inherited k = false -> 0 <= n ->
  Js.assoc o k = counted n ->
  Js.assoc (foldl increment o ks) k
  = counted (n + Z.of_nat (length (only k ks))).
Proof.
  intros Hk. revert o n. induction ks as [|k' ks IH]; intros o n Hn Ho; simpl.
  - rewrite Z.add_0_r. exact Ho.
  - destruct (String.eqb_spec k k') as [<-|Hne]; simpl length.
    + rewrite (IH (increment o k) (n + 1)); [f_equal; lia|lia|].
      apply assoc_increment_counted; assumption.
    + apply IH; [exact Hn|].
      rewrite assoc_increment_ne by congruence. exact Ho.
Qed.

End ObjectFacts.

Section EntriesFacts.
Implicit Types (o : Js.object) (k : string) (v : Js.value).

Lemma filter_partition_perm {A : Type} (p : A -> bool) (l : list A) :
  List.filter p l ++ List.filter (fun x => negb (p x)) l ≡ₚ l.
Proof.
  induction l as [|x l IH]; simpl; [reflexivity|].
  destruct (p x); simpl.
  - rewrite IH. reflexivity.
  - rewrite <- Permutation_middle, IH. reflexivity.
Qed.

Lemma entries_perm o : Js.entries o ≡ₚ o.
Proof.
  unfold Js.entries. rewrite sort_perm. apply filter_partition_perm.
Qed.

Lemma assoc_Some_elem o k v :
  NoDup o.*1 -> Js.assoc o k = Some v <-> (k, v) ∈ o.
Proof.
  induction o as [|[k0 v0] o IH]; intros Hnd; simpl.
  - split; [discriminate|]. intros H. apply elem_of_nil in H. destruct H.
  - apply NoDup_cons in Hnd. destruct Hnd as [Hk0 Hnd].
    destruct (String.eqb_spec k0 k) as [->|Hne].
    + split.
      * intros [= ->]. left.
      * intros H. apply elem_of_cons in H. destruct H as [[= ->]|H].
        -- reflexivity.
        -- exfalso. apply Hk0.
           apply (list_elem_of_fmap_2 fst) in H. exact H.
    + rewrite (IH Hnd). split.
      * intros H. right. exact H.
      * intros H. apply elem_of_cons in H. destruct H as [[= <- <-]|H].
        -- congruence.
        -- exact H.
Qed.

Lemma assoc_perm o o' k :
  NoDup o.*1 -> o ≡ₚ o' -> Js.assoc o k = Js.assoc o' k.
Proof.
  intros Hnd Hp.
  assert (Hnd' : NoDup o'.*1) by (rewrite <- Hp; exact Hnd).
  destruct (Js.assoc o k) as [v|] eqn:E.
  - apply (assoc_Some_elem o k v Hnd) in E. rewrite Hp in E.
    symmetry. apply (assoc_Some_elem o' k v Hnd'). exact E.
  - destruct (Js.assoc o' k) as [v'|] eqn:E'; [|reflexivity].
    apply (assoc_Some_elem o' k v' Hnd') in E'. rewrite <- Hp in E'.
    apply (assoc_Some_elem o k v' Hnd) in E'. congruence.
Qed.

End EntriesFacts.

(** ** Reading the aggregators' results *)

Lemma only_fmap (name : TicketRecord -> string) k records :
  Z.of_nat (length (only k (name <$> records))) = bucketSize name k records.
Proof.
  unfold bucketSize, only.
  assert (H : List.filter (String.eqb k) (name <$> records)
              = name <$> List.filter (fun r => String.eqb k (name r)) records).
  { induction records as [|r records IH]; [reflexivity|].
    cbn [fmap list_fmap List.filter].
    destruct (String.eqb k (name r)); cbn [fmap list_fmap];
      rewrite <- IH; reflexivity. }
  rewrite H, length_fmap. reflexivity.
Qed.

Lemma eq_reflexive_perm {A : Type} (l1 l2 : list A) : l1 = l2 -> l1 ≡ₚ l2.
Proof. intros ->. reflexivity. Qed.

Lemma chart_pairs_perm compareFn o :
  chartPair <$> Js.sort compareFn
                  ((fun '(name, count) => ChartEntry.mk name count)
                     <$> Js.entries o)
  ≡ₚ o.
Proof.
  rewrite sort_perm, <- list_fmap_compose, entries_perm.
  rewrite <- (list_fmap_id o) at 2.
  apply eq_reflexive_perm, list_fmap_ext. intros i [k v] _. reflexivity.
Qed.


Lemma assigneeDistribution_tally records agentMap :
  processAssigneeDistribution records agentMap
  = Js.sort (fun a b => Js.sub (Js.toNumber (ChartEntry.value b))
                               (Js.toNumber (ChartEntry.value a)))
      ((fun '(name, count) => ChartEntry.mk name count)
         <$> Js.entries (foldl increment [] (assigneeName agentMap <$> records))).
Proof.
  unfold processAssigneeDistribution. rewrite foldl_fmap. reflexivity.
Qed.

Lemma chartValue_assigneeDistribution records agentMap k :
  chartValue k (processAssigneeDistribution records agentMap)
  = Js.assoc (foldl increment [] (assigneeName agentMap <$> records)) k.
Proof.
  rewrite assigneeDistribution_tally. unfold chartValue.
  symmetry. apply assoc_perm.
  - apply NoDup_keys_tally. constructor.
  - symmetry. apply chart_pairs_perm.
Qed.

Lemma foldl_increment_if {R : Type} (c : R -> bool) (f : R -> string)
    (l : list R) o :
  foldl (fun acc r => if c r then increment acc (f r) else acc) o l
  = foldl increment o (f <$> List.filter c l).
Proof.
  revert o. induction l as [|r l IH]; intros o; simpl; [reflexivity|].
  destruct (c r); simpl; apply IH.
Qed.


(** ** Assignee distribution and top administrators *)

Lemma unresolved_byId agentMap r :
  (assignee r = None
   \/ exists id, assignee r = Some id /\ agentMap !! id = None) ->
  byId agentMap (assignee r) = None.
Proof.
  intros [H|(id & H & Hid)]; rewrite H; simpl; [reflexivity|exact Hid].
Qed.

Lemma unresolved_name agentMap r :
  byId agentMap (assignee r) = None -> assigneeName agentMap r = "Unassigned".
Proof.
  intros H. unfold assigneeName. rewrite H. simpl.
  rewrite andb_false_r. reflexivity.
Qed.

Lemma chartValue_clean records agentMap k :
  Js.inherited k = false ->
  chartValue k (processAssigneeDistribution records agentMap)
  = counted (bucketSize (assigneeName agentMap) k records).
Proof.
  intros Hk. rewrite chartValue_assigneeDistribution.
  rewrite (assoc_tally_counted _ [] k 0 Hk); [|lia|reflexivity].
  rewrite only_fmap. reflexivity.
Qed.

Lemma bucketSize_insert name k records1 r records2 :
  bucketSize name k (records1 ++ r :: records2)
  = bucketSize name k (records1 ++ records2)
    + (if String.eqb k (name r) then 1 else 0).
Proof.
  unfold bucketSize. rewrite !List.filter_app. simpl.
  destruct (String.eqb k (name r)); rewrite !length_app; simpl length; lia.
Qed.

Lemma bucketSize_nonneg name k records : 0 <= bucketSize name k records.
Proof. unfold bucketSize. lia. Qed.

(** C7. Take a record whose assignee is absent or is not in the agent
    directory, anywhere in the record list.  In the assignee distribution it
    is counted under Unassigned: with it the Unassigned entry has value
    [n + 1], where [n] is the number of other records counted there, and
    every other entry is as without it.  The top-administrators ranking is
    the same with and without the record. *)
Theorem unresolved_assignee_is_unassigned_and_unranked
    records1 r records2 agentMap :
  (assignee r = None
   \/ exists id, assignee r = Some id /\ agentMap !! id = None) ->
  let records := records1 ++ r :: records2 in
  let others := records1 ++ records2 in
  let n := bucketSize (assigneeName agentMap) "Unassigned" others in
  chartValue "Unassigned" (processAssigneeDistribution records agentMap)
  = Some (Js.Num (n + 1))
  /\ chartValue "Unassigned" (processAssigneeDistribution others agentMap)
     = (if n =? 0 then None else Some (Js.Num n))
  /\ (forall k, k <> "Unassigned" ->
        chartValue k (processAssigneeDistribution records agentMap)
        = chartValue k (processAssigneeDistribution others agentMap))
  /\ processTopAdministrators records agentMap
     = processTopAdministrators others agentMap.
Proof.
  intros Hr records others n.
  apply unresolved_byId in Hr.
  pose proof (unresolved_name agentMap r Hr) as Hname.
  repeat split.
  - rewrite chartValue_clean by reflexivity.
    subst records. rewrite bucketSize_insert, Hname. simpl.
    fold others. fold n. unfold counted.
    pose proof (bucketSize_nonneg (assigneeName agentMap) "Unassigned" others).
    destruct (Z.eqb_spec (n + 1) 0); [subst n; lia|reflexivity].
  - rewrite chartValue_clean by reflexivity. reflexivity.
  - intros k Hk. rewrite !chartValue_assigneeDistribution.
    rewrite (assoc_tally_only (_ <$> records) [] [] k eq_refl).
    rewrite (assoc_tally_only (_ <$> others) [] [] k eq_refl).
    f_equal. f_equal. subst records others. unfold only.
    rewrite !fmap_app, !List.filter_app. f_equal.
    rewrite fmap_cons. simpl. rewrite Hname.
    destruct (String.eqb_spec k "Unassigned"); [contradiction|reflexivity].
  - unfold processTopAdministrators. rewrite !foldl_increment_if.
    subst records others. rewrite !List.filter_app. simpl.
    rewrite Hr. simpl. rewrite andb_false_r. reflexivity.
Qed.

Lemma unresolved_assignee_is_unassigned_and_unranked_witness :
  chartValue "Unassigned"
    (processAssigneeDistribution
       [assignedTo (Some 7); assignedTo (Some 99); assignedTo None] twoAgents)
  = Some (Js.Num 2).
Proof.
  destruct (unresolved_assignee_is_unassigned_and_unranked
              [assignedTo (Some 7)] (assignedTo (Some 99)) [assignedTo None]
              twoAgents) as (H & _).
  - right. exists 99. split; reflexivity.
  - exact H.
Defined.

Example unresolved_assignee_run :
  processAssigneeDistribution
    [assignedTo (Some 7); assignedTo (Some 99); assignedTo None] twoAgents
  = [ ChartEntry.mk "Unassigned" (Js.Num 2);
      ChartEntry.mk "Ada Lovelace" (Js.Num 1) ]
  /\ processTopAdministrators
       [assignedTo (Some 7); assignedTo (Some 99); assignedTo None] twoAgents
     = [ RankEntry.mk "Ada Lovelace" (Js.Num 1) ].
Proof. split; reflexivity. Qed.

(** ** Distribution totals *)

Section TotalFacts.
Implicit Types (o : Js.object) (k : string) (v : Js.value).

Lemma add_assoc a b c : Js.add a (Js.add b c) = Js.add (Js.add a b) c.
Proof.
  destruct a, b, c; simpl; try reflexivity. f_equal. lia.
Qed.

Lemma add_comm a b : Js.add a b = Js.add b a.
Proof. destruct a, b; simpl; try reflexivity. f_equal. lia. Qed.

Lemma total_perm o o' : o ≡ₚ o' -> Js.total o = Js.total o'.
Proof.
  induction 1 as [|x l l' _ IH|x y l|l l' l'' _ IH1 _ IH2]; simpl.
  - reflexivity.
  - rewrite IH. reflexivity.
  - rewrite !add_assoc. f_equal. apply add_comm.
  - congruence.
Qed.

Lemma total_update_fresh o k v :
  Js.assoc o k = None ->
  Js.total (Js.update o k v) = Js.add (Js.total o) (Js.toNumber v).
Proof.
  induction o as [|[k' v'] o IH]; simpl; intros H.
  - apply add_comm.
  - destruct (String.eqb k' k); [discriminate|]. simpl.
    rewrite IH by exact H. apply add_assoc.
Qed.

Lemma total_update_num o k n n' m :
  Js.assoc o k = Some (Js.Num n) ->
  Js.total o = Some m ->
  Js.total (Js.update o k (Js.Num n')) = Some (m - n + n').
Proof.
  revert m. induction o as [|[k' v'] o IH]; simpl; intros m H Ht.
  - discriminate.
  - destruct (String.eqb k' k); simpl.
    + injection H as ->. simpl in Ht.
      destruct (Js.total o) as [b|]; [|discriminate].
      injection Ht as <-. simpl. f_equal. lia.
    + destruct (Js.toNumber v') as [a|]; [|discriminate].
      destruct (Js.total o) as [b|]; [|discriminate].
      injection Ht as <-. rewrite (IH b H eq_refl). simpl. f_equal. lia.
Qed.

Lemma total_numeric o k v m :
  Js.total o = Some m -> Js.assoc o k = Some v -> exists n, v = Js.Num n.
Proof.
  revert m. induction o as [|[k' v'] o IH]; simpl; intros m Ht H.
  - discriminate.
  - destruct (Js.toNumber v') as [a|] eqn:Ea; [|discriminate].
    destruct (Js.total o) as [b|] eqn:Eb; [|discriminate].
    destruct (String.eqb k' k).
    + injection H as <-. destruct v' as [n|s]; [|discriminate]. eauto.
    + eapply IH; [reflexivity|exact H].
Qed.

Lemma total_increment o k m :
  Js.inherited k = false ->
  Js.total o = Some m -> Js.total (increment o k) = Some (m + 1).
Proof.
  intros Hk Ht. unfold increment, Js.set, Js.get.
  assert (Hp : String.eqb k "__proto__" = false).
  { apply String.eqb_neq. intros ->. discriminate Hk. }
  rewrite Hp. unfold Js.inherited in Hk.
  destruct (Js.assoc o k) as [v|] eqn:E.
  - destruct (total_numeric o k v m Ht E) as [n ->].
    assert (Hv : Js.orZeroPlusOne (Js.Own (Js.Num n)) = Js.Num (n + 1)).
    { unfold Js.orZeroPlusOne, Js.truthy.
      destruct (Z.eqb_spec n 0) as [->|]; reflexivity. }
    rewrite Hv, (total_update_num o k n (n + 1) m E Ht). f_equal. lia.
  - destruct (Js.assoc Js.ObjectPrototype k); [discriminate|].
    rewrite total_update_fresh by exact E. rewrite Ht. reflexivity.
Qed.

Lemma total_tally (ks : list string) o m :
  Forall (fun k => Js.inherited k = false) ks ->
  Js.total o = Some m ->
  Js.total (foldl increment o ks) = Some (m + Z.of_nat (length ks)).
Proof.
  intros Hks. revert o m.
  induction Hks as [|k ks Hk _ IH]; intros o m Ht; simpl.
  - rewrite Z.add_0_r. exact Ht.
  - rewrite (IH _ (m + 1)); [f_equal; lia|].
    apply total_increment; assumption.
Qed.

End TotalFacts.

(** When no record is counted under a name that [Object.prototype] also
    defines, the values of the assignee distribution add up to the number of
    records. *)
Theorem assigneeDistribution_total records agentMap :
  Forall (fun r => Js.inherited (assigneeName agentMap r) = false) records ->
  sumOfValues (processAssigneeDistribution records agentMap)
  = Some (Z.of_nat (length records)).
Proof.
  intros H. unfold sumOfValues.
  rewrite assigneeDistribution_tally, (total_perm _ _ (chart_pairs_perm _ _)).
  rewrite (total_tally _ [] 0); [rewrite length_fmap; reflexivity| |reflexivity].
  apply Forall_fmap. exact H.
Qed.

Lemma assigneeDistribution_total_witness :
  sumOfValues
    (processAssigneeDistribution
       [assignedTo (Some 7); assignedTo (Some 99); assignedTo None] twoAgents)
  = Some 3.
Proof.
  apply (assigneeDistribution_total
           [assignedTo (Some 7); assignedTo (Some 99); assignedTo None]
           twoAgents).
  repeat constructor.
Defined.

(** C8, at failing inputs.  One record, assigned to an agent whose display
    name is [constructor]: reading [distribution[name]] finds the inherited
    function, which is truthy, and adding [1] to it gives a string; the
    single entry's value is that string and the sum is not a number.  With
    the display name [__proto__] the assignment is swallowed by the inherited
    setter, the distribution is empty and the sum is [0].  The record list
    has length [1] in both cases. *)
Theorem assigneeDistribution_total_inherited_name :
  processAssigneeDistribution [assignedTo (Some 7)] (oneAgent "constructor")
  = [ ChartEntry.mk "constructor"
        (Js.Str "function Object() { [native code] }1") ]
  /\ sumOfValues
       (processAssigneeDistribution [assignedTo (Some 7)]
          (oneAgent "constructor"))
     = Js.NaN
  /\ processAssigneeDistribution [assignedTo (Some 7)] (oneAgent "__proto__")
     = []
  /\ sumOfValues
       (processAssigneeDistribution [assignedTo (Some 7)]
          (oneAgent "__proto__"))
     = Some 0.
Proof. repeat split. Qed.

(** ** Rankings *)



Lemma only_clean k (ks : list string) :
  Forall (fun k' => Js.inherited k' = false) ks ->
  Js.inherited k = true -> only k ks = [].
Proof.
  intros Hks Hk. unfold only.
  induction Hks as [|k' ks Hk' _ IH]; simpl; [reflexivity|].
  destruct (String.eqb_spec k k') as [->|_]; [congruence|exact IH].
Qed.

Lemma assoc_tally_clean (ks : list string) k :
  Forall (fun k' => Js.inherited k' = false) ks ->
  Js.assoc (foldl increment [] ks) k
  = counted (Z.of_nat (length (only k ks))).
Proof.
  intros Hks. destruct (Js.inherited k) eqn:Hk.
  - rewrite (assoc_tally_only ks [] [] k eq_refl).
    rewrite (only_clean k ks Hks Hk). reflexivity.
  - apply (assoc_tally_counted ks [] k 0 Hk); [lia|reflexivity].
Qed.



Section RankedFacts.
Variable names : list string.
Hypothesis clean : Forall (fun k => Js.inherited k = false) names.





End RankedFacts.




Example topAdministrators_entry_run :
  RankEntry.properties
    <$> processTopAdministrators [assignedTo (Some 7)] twoAgents
  = [ [ ("name", Js.Str "Ada Lovelace"); ("count", Js.Num 1) ] ]
  /\ ChartEntry.properties
       <$> processAssigneeDistribution [assignedTo (Some 7)] twoAgents
     = [ [ ("name", Js.Str "Ada Lovelace"); ("value", Js.Num 1) ] ].
Proof. split; reflexivity. Qed.

(** With agents named after inherited properties the counts are strings,
    every comparison is [NaN], and the order of first occurrence stands:
    four such agents with one record each fill the result and the agent with
    three records is cut.  No ranking of these records has this result as its
    first four entries. *)
Lemma topAdministrators_inherited_names_break_ranking :
  let records :=
    assignedTo <$> [Some 1; Some 2; Some 3; Some 4; Some 5; Some 5; Some 5] in
  RankEntry.name <$> processTopAdministrators records inheritedAgents
  = ["constructor"; "toString"; "valueOf"; "hasOwnProperty"]
  /\ rankCount "Grace Hopper"
       (processTopAdministrators records inheritedAgents) = None
  /\ ~ exists ranking,
         isRanking (rankedNames inheritedAgents assignee records) ranking
         /\ processTopAdministrators records inheritedAgents = take 4 ranking.
Proof.
  split; [reflexivity|]. split; [reflexivity|].
  intros (ranking & (_ & _ & Hnum & _) & Heq).
  destruct ranking as [|e ranking]; [discriminate Heq|].
  apply Forall_inv in Hnum. destruct Hnum as [n Hn].
  vm_compute in Heq. injection Heq as <-. discriminate Hn.
Qed.



Example topEndUsers_run :
  processTopEndUsers
    (requestedBy <$> [Some 6; Some 2; Some 1; Some 2; Some 3;
                      Some 4; None; Some 5; Some 2; Some 5; Some 9])
    sixUsers
  = [ RankEntry.mk "Bob" (Js.Num 3); RankEntry.mk "Ed" (Js.Num 2);
      RankEntry.mk "Flo" (Js.Num 1); RankEntry.mk "Ann" (Js.Num 1);
      RankEntry.mk "Cy" (Js.Num 1) ].
Proof. reflexivity. Qed.

(** ** Priority distribution *)

Lemma priorityLabel_spec p :
  (if Js.truthyStr (byId priorityMap p)
   then Js.propertyKey (byId priorityMap p)
   else "Unknown")
  = PrioritySpec.priorityLabel p.
Proof.
  destruct p as [z|]; [|reflexivity].
  unfold PrioritySpec.priorityLabel, byId.
  destruct (Z.eqb_spec z 1) as [->|H1]; [reflexivity|].
  destruct (Z.eqb_spec z 2) as [->|H2]; [reflexivity|].
  destruct (Z.eqb_spec z 3) as [->|H3]; [reflexivity|].
  destruct (Z.eqb_spec z 4) as [->|H4]; [reflexivity|].
  destruct (Z.eqb_spec z 5) as [->|H5]; [reflexivity|].
  unfold priorityMap.
  rewrite !lookup_insert_ne, lookup_singleton_ne by congruence.
  reflexivity.
Qed.

Lemma foldl_increment_ext {R : Type} (f g : R -> string) (l : list R) o :
  (forall r, f r = g r) ->
  foldl (fun acc r => increment acc (f r)) o l = foldl increment o (g <$> l).
Proof.
  intros H. revert o. induction l as [|r l IH]; intros o; simpl.
  - reflexivity.
  - rewrite H. apply IH.
Qed.

Lemma priorityDistribution_tally records :
  processPriorityDistribution records
  = Js.sort (fun a b =>
               Js.sub (Js.orDefault (Js.get order (ChartEntry.name a)) 999)
                      (Js.orDefault (Js.get order (ChartEntry.name b)) 999))
      ((fun '(name, count) => ChartEntry.mk name count)
         <$> Js.entries
               (foldl increment []
                  ((fun r => PrioritySpec.priorityLabel (priority r))
                     <$> records))).
Proof.
  unfold processPriorityDistribution.
  rewrite (foldl_increment_ext _
             (fun r => PrioritySpec.priorityLabel (priority r)));
    [reflexivity|].
  intros r. apply priorityLabel_spec.
Qed.

Lemma rankOrder_facts :
  Forall (fun k => Js.inherited k = false
                   /\ Js.orDefault (Js.get order k) 999 = Some (rankOf k))
    PrioritySpec.rankOrder.
Proof. repeat constructor. Qed.

Lemma priorityLabel_rankOrder p :
  PrioritySpec.priorityLabel p ∈ PrioritySpec.rankOrder.
Proof.
  unfold PrioritySpec.priorityLabel, PrioritySpec.rankOrder.
  destruct p as [z|]; repeat case_match; set_solver.
Qed.

Lemma rankOf_inj a b :
  a ∈ PrioritySpec.rankOrder -> b ∈ PrioritySpec.rankOrder ->
  rankOf a = rankOf b -> a = b.
Proof.
  unfold PrioritySpec.rankOrder. intros Ha Hb.
  repeat (apply elem_of_cons in Ha; destruct Ha as [->|Ha]);
    try (apply elem_of_nil in Ha; destruct Ha);
    repeat (apply elem_of_cons in Hb; destruct Hb as [->|Hb]);
    try (apply elem_of_nil in Hb; destruct Hb);
    intros H; try reflexivity; vm_compute in H; discriminate H.
Qed.

Lemma only_elem k (ks : list string) : only k ks <> [] -> k ∈ ks.
Proof.
  unfold only. induction ks as [|k' ks IH]; simpl; [congruence|].
  destruct (String.eqb_spec k k') as [->|_]; intros H.
  - left.
  - right. apply IH, H.
Qed.

Lemma counted_Some n v : counted n = Some v -> n <> 0 /\ v = Js.Num n.
Proof.
  unfold counted. destruct (Z.eqb_spec n 0); [discriminate|].
  intros [= <-]. auto.
Qed.

Section PriorityFacts.
Variable records : list TicketRecord.

Let label (r : TicketRecord) : string := PrioritySpec.priorityLabel (priority r).
Let labels : list string := label <$> records.

Lemma labels_rankOrder : Forall (fun k => k ∈ PrioritySpec.rankOrder) labels.
Proof.
  apply Forall_fmap, Forall_forall. intros r _. apply priorityLabel_rankOrder.
Qed.

Lemma labels_clean : Forall (fun k => Js.inherited k = false) labels.
Proof.
  eapply Forall_impl; [apply labels_rankOrder|]. simpl. intros k Hk.
  pose proof rankOrder_facts as H. rewrite Forall_forall in H.
  apply (H k Hk).
Qed.

Lemma priority_pairs_perm :
  chartPair <$> processPriorityDistribution records
  ≡ₚ foldl increment [] labels.
Proof. rewrite priorityDistribution_tally. apply chart_pairs_perm. Qed.

Lemma priority_elem x :
  x ∈ processPriorityDistribution records <->
  ChartEntry.name x ∈ PrioritySpec.rankOrder
  /\ counted (bucketSize label (ChartEntry.name x) records)
     = Some (ChartEntry.value x).
Proof.
  assert (Hnd : NoDup (foldl increment [] labels).*1)
    by (apply NoDup_keys_tally; constructor).
  assert (Hin : x ∈ processPriorityDistribution records
                <-> chartPair x ∈ foldl increment [] labels).
  { rewrite <- priority_pairs_perm. split.
    - apply list_elem_of_fmap_2.
    - intros H. apply list_elem_of_fmap in H. destruct H as (y & Heq & Hy).
      destruct x, y. injection Heq as -> ->. exact Hy. }
  rewrite Hin. unfold chartPair.
  rewrite <- (assoc_Some_elem _ _ _ Hnd).
  rewrite (assoc_tally_clean labels _ labels_clean).
  unfold labels. rewrite only_fmap. split.
  - intros H. split; [|exact H].
    apply counted_Some in H. destruct H as [Hn _].
    pose proof labels_rankOrder as Hl. rewrite Forall_forall in Hl.
    apply Hl, only_elem. intros Hnil. apply Hn.
    rewrite <- only_fmap. fold labels. rewrite Hnil. reflexivity.
  - intros [_ H]. exact H.
Qed.

Lemma prioritySpec_elem x :
  x ∈ PrioritySpec.priorityDistribution records <->
  ChartEntry.name x ∈ PrioritySpec.rankOrder
  /\ counted (bucketSize label (ChartEntry.name x) records)
     = Some (ChartEntry.value x).
Proof.
  unfold PrioritySpec.priorityDistribution. rewrite list_elem_of_omap.
  fold label. unfold counted. split.
  - intros (k & Hk & H).
    destruct (bucketSize label k records =? 0) eqn:E; [discriminate|].
    injection H as <-. simpl. rewrite E. auto.
  - intros [Hk H]. exists (ChartEntry.name x). split; [exact Hk|].
    destruct (bucketSize label (ChartEntry.name x) records =? 0);
      [discriminate|].
    destruct x. simpl in *. injection H as <-. reflexivity.
Qed.

Lemma priority_NoDup : NoDup (processPriorityDistribution records).
Proof.
  apply (NoDup_fmap_1 chartPair). rewrite priority_pairs_perm.
  apply (NoDup_fmap_1 fst). apply NoDup_keys_tally. constructor.
Qed.

Lemma omap_NoDup {A B : Type} (f : A -> option B) (g : B -> A) (l : list A) :
  (forall x y, f x = Some y -> g y = x) -> NoDup l -> NoDup (omap f l).
Proof.
  intros Hg. induction 1 as [|x l Hx _ IH]; simpl; [constructor|].
  destruct (f x) as [y|] eqn:E; [|exact IH].
  constructor; [|exact IH].
  intros Hy. apply list_elem_of_omap in Hy. destruct Hy as (x' & Hx' & E').
  apply Hg in E. apply Hg in E'. congruence.
Qed.

Lemma prioritySpec_NoDup : NoDup (PrioritySpec.priorityDistribution records).
Proof.
  unfold PrioritySpec.priorityDistribution.
  apply (omap_NoDup _ ChartEntry.name).
  - intros k y. simpl. case_match; [discriminate|]. intros [= <-]. reflexivity.
  - apply (bool_decide_unpack _). vm_compute. exact I.
Qed.

Lemma priority_sorted :
  StronglySorted (fun a b => rankOf (ChartEntry.name a)
                             <= rankOf (ChartEntry.name b))
    (processPriorityDistribution records).
Proof.
  pose proof rankOrder_facts as Hfacts. rewrite Forall_forall in Hfacts.
  assert (Hrank : forall x, x ∈ processPriorityDistribution records ->
            Js.orDefault (Js.get order (ChartEntry.name x)) 999
            = Some (rankOf (ChartEntry.name x))).
  { intros x Hx. apply priority_elem in Hx. apply Hfacts, Hx. }
  revert Hrank. rewrite priorityDistribution_tally. intros Hrank.
  apply (sort_sorted _ (fun e => rankOf (ChartEntry.name e))).
  intros x y Hx Hy. rewrite <- sort_perm in Hx, Hy.
  rewrite (Hrank x Hx), (Hrank y Hy). reflexivity.
Qed.

Lemma omap_sorted {A B : Type} (f : A -> option B) (g : A -> Z) (h : B -> Z)
    (l : list A) :
  (forall x y, f x = Some y -> h y = g x) ->
  StronglySorted (fun a b => g a <= g b) l ->
  StronglySorted (fun a b => h a <= h b) (omap f l).
Proof.
  intros Hh. induction 1 as [|x l _ IH Hx]; simpl; [constructor|].
  destruct (f x) as [y|] eqn:E; [|exact IH].
  constructor; [exact IH|].
  apply Forall_forall. intros y' Hy'.
  apply list_elem_of_omap in Hy'. destruct Hy' as (x' & Hx' & E').
  rewrite (Hh _ _ E), (Hh _ _ E').
  rewrite Forall_forall in Hx. apply Hx, Hx'.
Qed.

Lemma prioritySpec_sorted :
  StronglySorted (fun a b => rankOf (ChartEntry.name a)
                             <= rankOf (ChartEntry.name b))
    (PrioritySpec.priorityDistribution records).
Proof.
  unfold PrioritySpec.priorityDistribution.
  apply (omap_sorted _ rankOf (fun e => rankOf (ChartEntry.name e))).
  - intros k y. simpl. case_match; [discriminate|]. intros [= <-]. reflexivity.
  - unfold PrioritySpec.rankOrder.
    repeat (constructor; [|repeat constructor; vm_compute; discriminate]).
    constructor.
Qed.

Lemma priorityDistribution_spec :
  processPriorityDistribution records
  = PrioritySpec.priorityDistribution records.
Proof.
  apply (StronglySorted_unique_strong
           (fun a b => rankOf (ChartEntry.name a) <= rankOf (ChartEntry.name b))).
  - intros x1 x2 H1 H2 Hle Hge.
    apply priority_elem in H1. apply prioritySpec_elem in H2.
    destruct H1 as [Hk1 Hv1]. destruct H2 as [Hk2 Hv2].
    assert (Hname : ChartEntry.name x1 = ChartEntry.name x2)
      by (apply rankOf_inj; [assumption..|lia]).
    destruct x1 as [k1 v1], x2 as [k2 v2]. simpl in *. subst k2.
    rewrite Hv1 in Hv2. injection Hv2 as ->. reflexivity.
  - apply priority_sorted.
  - apply prioritySpec_sorted.
  - apply NoDup_Permutation.
    + apply priority_NoDup.
    + apply prioritySpec_NoDup.
    + intros x. rewrite priority_elem, prioritySpec_elem. reflexivity.
Qed.

End PriorityFacts.

(** C6. For records with priorities 2, 1, 3, 5 the priority distribution is
    Very High, High, Normal, Very Low in that order, each with value 1.  For
    every record list it is the list of the labels that occur, in the fixed
    rank order Very High, High, Normal, Low, Very Low, Unknown, each with
    the number of records under it, where codes 1 to 5 map to the first five
    labels and any other or missing priority to Unknown; the order does not
    follow the counts. *)
Theorem priorityDistribution_in_rank_order :
  processPriorityDistribution
    (withPriority <$> [Some 2; Some 1; Some 3; Some 5])
  = [ ChartEntry.mk "Very High" (Js.Num 1); ChartEntry.mk "High" (Js.Num 1);
      ChartEntry.mk "Normal" (Js.Num 1); ChartEntry.mk "Very Low" (Js.Num 1) ]
  /\ (forall records,
        processPriorityDistribution records
        = PrioritySpec.priorityDistribution records)
  /\ (forall r,
        priority r = None
        \/ (exists z, priority r = Some z /\ (z < 1 \/ 5 < z)) ->
        processPriorityDistribution [r]
        = [ ChartEntry.mk "Unknown" (Js.Num 1) ])
  /\ processPriorityDistribution
       (withPriority <$> [Some 5; Some 5; Some 1; Some 5; Some 3; Some 3])
     = [ ChartEntry.mk "Very High" (Js.Num 1); ChartEntry.mk "Normal" (Js.Num 2);
         ChartEntry.mk "Very Low" (Js.Num 3) ].
Proof.
  split; [reflexivity|].
  split; [apply priorityDistribution_spec|].
  split; [|reflexivity].
  intros r Hr. rewrite priorityDistribution_spec.
  assert (Hl : PrioritySpec.priorityLabel (priority r) = "Unknown").
  { destruct Hr as [->|(z & -> & Hz)]; [reflexivity|].
    unfold PrioritySpec.priorityLabel.
    repeat (case_match; [lia|]). reflexivity. }
  unfold PrioritySpec.priorityDistribution, bucketSize. simpl.
  rewrite Hl. reflexivity.
Qed.

(** ** The strings a counter can hold *)

Lemma prefix_app p s t :
  String.prefix p s = true -> String.prefix p (s +:+ t) = true.
Proof.
  revert s. induction p as [|c p IH]; intros s.
  - intros _. destruct (s +:+ t); reflexivity.
  - destruct s as [|c' s]; [discriminate|]. simpl.
    destruct (Ascii.ascii_dec c c'); [apply IH|discriminate].
Qed.

Lemma assoc_In {A : Type} (l : list (string * A)) k v :
  Js.assoc l k = Some v -> In (k, v) l.
Proof.
  induction l as [|[k' v'] l IH]; simpl; [discriminate|].
  destruct (String.eqb_spec k' k) as [->|_].
  - intros [= ->]. left. reflexivity.
  - intros H. right. apply IH, H.
Qed.

Lemma inherited_text k text :
  Js.assoc Js.ObjectPrototype k = Some text ->
  String.eqb k "__proto__" = false ->
  String.prefix "function" text = true.
Proof.
  intros H Hk. apply assoc_In in H.
  assert (Hall : forallb (fun e => String.eqb (fst e) "__proto__"
                                   || String.prefix "function" (snd e))
                   Js.ObjectPrototype = true) by reflexivity.
  rewrite forallb_forall in Hall. specialize (Hall _ H). simpl in Hall.
  rewrite Hk in Hall. exact Hall.
Qed.

Lemma sourceText_update (o : Js.object) k v :
  Forall (fun e => sourceText e.2) o -> sourceText v ->
  Forall (fun e => sourceText e.2) (Js.update o k v).
Proof.
  intros Ho Hv. induction Ho as [|[k' v'] o Hv' Ho' IH]; simpl.
  - repeat constructor. exact Hv.
  - destruct (String.eqb k' k); constructor; assumption.
Qed.

Lemma sourceText_assoc (o : Js.object) k v :
  Forall (fun e => sourceText e.2) o -> Js.assoc o k = Some v -> sourceText v.
Proof.
  intros Ho H. apply assoc_In in H. rewrite Forall_forall in Ho.
  apply (Ho (k, v)), list_elem_of_In, H.
Qed.

Lemma sourceText_increment (o : Js.object) k :
  Forall (fun e => sourceText e.2) o ->
  Forall (fun e => sourceText e.2) (increment o k).
Proof.
  intros Ho. unfold increment, Js.set.
  destruct (String.eqb k "__proto__") eqn:Hk; [exact Ho|].
  apply sourceText_update; [exact Ho|].
  unfold Js.get. destruct (Js.assoc o k) as [v|] eqn:E.
  - pose proof (sourceText_assoc o k v Ho E) as Hv.
    unfold Js.orZeroPlusOne. destruct (Js.truthy (Js.Own v)); [|exact I].
    destruct v as [n|s]; [exact I|]. simpl. apply prefix_app, Hv.
  - destruct (Js.assoc Js.ObjectPrototype k) as [text|] eqn:Ep; [|exact I].
    simpl. apply prefix_app. exact (inherited_text k text Ep Hk).
Qed.

(** Every string a counter holds is the source text of a built-in function
    followed by 1s, which [Number] turns into [NaN]. *)
Lemma tally_text (ks : list string) (o : Js.object) :
  Forall (fun e => sourceText e.2) o ->
  Forall (fun e => sourceText e.2) (foldl increment o ks).
Proof.
  revert o. induction ks as [|k ks IH]; intros o Ho; simpl; [exact Ho|].
  apply IH, sourceText_increment, Ho.
Qed.

(** ** Further properties *)

(** Whatever makes [callConnect] throw, the token request or the resource
    request, [/api/tickets] and [/api/tickets/active] answer 500 with
    [success: false], the message, and the upstream body as [details]. *)
Theorem sibling_handlers_report_details cfg up parse limit offset w :
  (forall e w',
     callConnect cfg up
       ("/service-records?limit=" +:+ limit +:+ "&offset=" +:+ offset) w
     = (inl e, w') ->
     tickets cfg up limit offset w
     = (status_json 500 (Failure false (message e) (responseData e)), w'))
  /\ (forall e w',
        callConnect cfg up "/service-records/search?limit=100" w
        = (inl e, w') ->
        ticketsActive cfg up parse w
        = (status_json 500 (Failure false (message e) (responseData e)), w')).
Proof.
  split; intros e w' H.
  - apply tickets_failure, H.
  - apply ticketsActive_failure, H.
Qed.

Lemma filter_twice {A : Type} (p : A -> bool) (l : list A) :
  List.filter p (List.filter p l) = List.filter p l.
Proof.
  induction l as [|x l IH]; simpl; [reflexivity|].
  destruct (p x) eqn:E; simpl; [rewrite E, IH|]; auto.
Qed.

(** Filtering by status twice is filtering once, for every filter value. *)
Theorem filterTicketsByStatus_idempotent records statusFilter :
  filterTicketsByStatus (filterTicketsByStatus records statusFilter)
    statusFilter
  = filterTicketsByStatus records statusFilter.
Proof.
  unfold filterTicketsByStatus.
  destruct (negb (Js.truthyStr statusFilter)); [reflexivity|].
  destruct (bool_decide (statusFilter = Some "all")); [reflexivity|].
  destruct (bool_decide (statusFilter = Some "open")); [apply filter_twice|].
  destruct (bool_decide (statusFilter = Some "closed")); [apply filter_twice|].
  reflexivity.
Qed.

(** ** Token cache over several calls *)

Lemma getAccessToken_miss_sent cfg up w :
  cacheValid (tokenCache w) (clock w) = false ->
  sent (snd (getAccessToken cfg up w)) = sent w ++ [tokenRequest cfg].
Proof.
  intros Hv.
  destruct (result (accessTokens up (sent w ++ [tokenRequest cfg])))
    as [e|g] eqn:Hr.
  - rewrite (getAccessToken_miss_fail cfg up w e Hv Hr). reflexivity.
  - rewrite (getAccessToken_miss_ok cfg up w g Hv Hr). reflexivity.
Qed.

(** A token acquired once is returned by a second call made before its
    expiry, and the two calls together have sent one token request. *)
Theorem getAccessToken_second_call_reuses cfg up w g t' :
  cacheValid (tokenCache w) (clock w) = false ->
  result (accessTokens up (sent w ++ [tokenRequest cfg])) = inr g ->
  grantToken g <> "" ->
  let w1 := snd (getAccessToken cfg up w) in
  t' < clock w1 + (expiresIn g - 300) * 1000 ->
  getAccessToken cfg up (atTime t' w1)
  = (inr (Some (grantToken g)), atTime t' w1)
  /\ sent (snd (getAccessToken cfg up (atTime t' w1)))
     = sent w ++ [tokenRequest cfg].
Proof.
  intros Hv Hr Hg w1 Ht.
  assert (Hhit : getAccessToken cfg up (atTime t' w1)
                 = (inr (Some (grantToken g)), atTime t' w1)).
  { subst w1. rewrite (getAccessToken_miss_ok cfg up w g Hv Hr) in *.
    simpl in *. rewrite getAccessToken_hit; [reflexivity|].
    apply cacheValid_spec. exists (grantToken g). simpl. auto. }
  split; [exact Hhit|]. rewrite Hhit. subst w1.
  rewrite (getAccessToken_miss_ok cfg up w g Hv Hr). reflexivity.
Qed.

Lemma getAccessToken_second_call_reuses_witness :
  sent (snd (getAccessToken demoConfig (serving (DArray []))
               (atTime 2000
                  (snd (getAccessToken demoConfig (serving (DArray []))
                          (coldStart 1000))))))
  = [tokenRequest demoConfig].
Proof.
  destruct (getAccessToken_second_call_reuses demoConfig
              (serving (DArray [])) (coldStart 1000)
              {| grantToken := "tok-1"; expiresIn := 3600 |} 2000)
    as [_ H]; [reflexivity | reflexivity | discriminate | simpl; lia | exact H].
Defined.

(** A grant whose lifetime is at most the 300 second margin, or whose token
    is the empty string, is stored but never reused: the cache is invalid at
    every later time and the next call sends a second token request. *)
Theorem getAccessToken_short_lifetime_never_reused cfg up w g t' :
  cacheValid (tokenCache w) (clock w) = false ->
  result (accessTokens up (sent w ++ [tokenRequest cfg])) = inr g ->
  expiresIn g <= 300 \/ grantToken g = "" ->
  let w1 := snd (getAccessToken cfg up w) in
  clock w1 <= t' ->
  cacheValid (tokenCache w1) t' = false
  /\ sent (snd (getAccessToken cfg up (atTime t' w1)))
     = sent w ++ [tokenRequest cfg; tokenRequest cfg].
Proof.
  intros Hv Hr Hg w1 Ht.
  assert (Hmiss : cacheValid (tokenCache w1) t' = false).
  { apply not_true_is_false. intros Hvalid.
    apply cacheValid_spec in Hvalid. destruct Hvalid as (s & Hs & Hne & Hlt).
    subst w1. rewrite (getAccessToken_miss_ok cfg up w g Hv Hr) in *.
    simpl in *. injection Hs as <-. destruct Hg as [Hg|Hg]; [lia|congruence]. }
  split; [exact Hmiss|].
  rewrite getAccessToken_miss_sent by exact Hmiss. simpl.
  subst w1. rewrite (getAccessToken_miss_sent cfg up w Hv), <- app_assoc.
  reflexivity.
Qed.

Lemma getAccessToken_short_lifetime_never_reused_witness :
  cacheValid
    (tokenCache
       (snd (getAccessToken demoConfig
               {| accessTokens := fun _ =>
                    {| latency := 40;
                       result := inr {| grantToken := "tok-2";
                                        expiresIn := 300 |} |};
                  resource := fun _ =>
                    {| latency := 25; result := inr (DArray []) |} |}
               (coldStart 1000))))
    1040
  = false.
Proof.
  destruct (getAccessToken_short_lifetime_never_reused demoConfig
              {| accessTokens := fun _ =>
                   {| latency := 40;
                      result := inr {| grantToken := "tok-2";
                                       expiresIn := 300 |} |};
                 resource := fun _ =>
                   {| latency := 25; result := inr (DArray []) |} |}
              (coldStart 1000)
              {| grantToken := "tok-2"; expiresIn := 300 |} 1040)
    as [H _];
    [reflexivity | reflexivity | left; simpl; lia
    | apply Z.leb_le; reflexivity | exact H].
Defined.

(** ** The upstream client *)

Lemma callConnect_hit cfg up endpoint w s :
  cacheValid (tokenCache w) (clock w) = true ->
  token (tokenCache w) = Some s ->
  callConnect cfg up endpoint w
  = (result (resource up (sent w ++ [resourceRequest cfg endpoint s])),
     {| tokenCache := tokenCache w;
        clock := clock w
                 + latency (resource up
                              (sent w ++ [resourceRequest cfg endpoint s]));
        sent := sent w ++ [resourceRequest cfg endpoint s] |}).
Proof.
  intros Hv Hs. unfold callConnect.
  rewrite (bind_returns _ _ w (Some s) w);
    [reflexivity | rewrite getAccessToken_hit, Hs; auto].
Qed.

Lemma callConnect_miss_ok cfg up endpoint w g :
  cacheValid (tokenCache w) (clock w) = false ->
  result (accessTokens up (sent w ++ [tokenRequest cfg])) = inr g ->
  let w1 := snd (getAccessToken cfg up w) in
  let request := resourceRequest cfg endpoint (grantToken g) in
  callConnect cfg up endpoint w
  = (result (resource up (sent w1 ++ [request])),
     {| tokenCache := tokenCache w1;
        clock := clock w1 + latency (resource up (sent w1 ++ [request]));
        sent := sent w1 ++ [request] |}).
Proof.
  intros Hv Hr w1 request. unfold callConnect.
  rewrite (bind_returns _ _ w (Some (grantToken g)) w1); [reflexivity|].
  subst w1. rewrite (getAccessToken_miss_ok cfg up w g Hv Hr). reflexivity.
Qed.

(** With a valid cached token [callConnect] sends exactly one request, a GET
    to [baseUrl/connect/v1] followed by the endpoint, bearing the cached
    token; it returns or throws what that request gives, and the cache is
    what it was. *)
Theorem callConnect_with_cached_token cfg up endpoint w s e :
  token (tokenCache w) = Some s ->
  s <> "" ->
  expiresAt (tokenCache w) = Some e ->
  clock w < e ->
  let request :=
    Get (baseUrl cfg +:+ "/connect/v1" +:+ endpoint) ("Bearer " +:+ s) in
  let w' := snd (callConnect cfg up endpoint w) in
  fst (callConnect cfg up endpoint w)
  = result (resource up (sent w ++ [request]))
  /\ sent w' = sent w ++ [request]
  /\ tokenCache w' = tokenCache w.
Proof.
  intros Hs Hne He Hlt request w'. subst w'.
  rewrite (callConnect_hit cfg up endpoint w s); [auto| |exact Hs].
  apply cacheValid_spec. exists s. rewrite He. auto.
Qed.

Lemma callConnect_with_cached_token_witness :
  sent (snd (callConnect demoConfig (serving (DArray [])) "/agents?limit=100"
               (warm "tok-0" 5000 1000)))
  = [ Get "https://itsm.example/connect/v1/agents?limit=100" "Bearer tok-0" ].
Proof.
  destruct (callConnect_with_cached_token demoConfig (serving (DArray []))
              "/agents?limit=100" (warm "tok-0" 5000 1000) "tok-0" 5000)
    as (_ & H & _);
    [reflexivity | discriminate | reflexivity | simpl; lia | exact H].
Defined.

(** When the token request fails, [callConnect] throws that failure and no
    resource request is sent: the token request is the only one. *)
Theorem callConnect_token_failure_sends_no_get cfg up endpoint w e :
  cacheValid (tokenCache w) (clock w) = false ->
  result (accessTokens up (sent w ++ [tokenRequest cfg])) = inl e ->
  let w' := snd (callConnect cfg up endpoint w) in
  fst (callConnect cfg up endpoint w) = inl e
  /\ sent w' = sent w ++ [tokenRequest cfg]
  /\ tokenCache w' = tokenCache w.
Proof.
  intros Hv Hr w'. subst w'. unfold callConnect.
  rewrite (bind_throws _ _ w e _ (getAccessToken_miss_fail cfg up w e Hv Hr)).
  simpl. auto.
Qed.

Lemma callConnect_token_failure_sends_no_get_witness :
  sent (snd (callConnect demoConfig refusingTokens "/agents?limit=100"
               (coldStart 1000)))
  = [tokenRequest demoConfig].
Proof.
  destruct (callConnect_token_failure_sends_no_get demoConfig refusingTokens
              "/agents?limit=100" (coldStart 1000)
              {| message := "Request failed with status code 401";
                 response := Some {| httpStatus := 401;
                                     errorData := Some (DOther "bad credentials") |} |})
    as (_ & H & _); [reflexivity | reflexivity | exact H].
Defined.

(** When a token has just been acquired and the resource request then
    fails, [callConnect] throws the resource failure, but the new token
    stays cached with its expiry: the requests sent are the token request
    and the resource request bearing the new token. *)
Theorem callConnect_fetch_failure_keeps_new_token cfg up endpoint w g e :
  cacheValid (tokenCache w) (clock w) = false ->
  result (accessTokens up (sent w ++ [tokenRequest cfg])) = inr g ->
  result (resource up
            (sent w ++ [tokenRequest cfg;
                        resourceRequest cfg endpoint (grantToken g)]))
  = inl e ->
  let t := clock w + latency (accessTokens up (sent w ++ [tokenRequest cfg])) in
  let w' := snd (callConnect cfg up endpoint w) in
  fst (callConnect cfg up endpoint w) = inl e
  /\ tokenCache w' = {| token := Some (grantToken g);
                        expiresAt := Some (t + (expiresIn g - 300) * 1000) |}
  /\ sent w' = sent w ++ [tokenRequest cfg;
                          resourceRequest cfg endpoint (grantToken g)].
Proof.
  intros Hv Hr He t w'. subst w'.
  rewrite (callConnect_miss_ok cfg up endpoint w g Hv Hr).
  rewrite (getAccessToken_miss_ok cfg up w g Hv Hr). simpl.
  rewrite <- app_assoc. simpl. rewrite He. auto.
Qed.

Lemma callConnect_fetch_failure_keeps_new_token_witness :
  tokenCache (snd (callConnect demoConfig refusingResources "/agents"
                     (coldStart 1000)))
  = {| token := Some "tok-1"; expiresAt := Some 3301040 |}.
Proof.
  destruct (callConnect_fetch_failure_keeps_new_token demoConfig
              refusingResources "/agents" (coldStart 1000)
              {| grantToken := "tok-1"; expiresIn := 3600 |} notFound)
    as (_ & H & _); [reflexivity | reflexivity | reflexivity | exact H].
Defined.

(** ** What the handlers do to the cache *)

Lemma callConnect_cache cfg up endpoint w :
  tokenCache (snd (callConnect cfg up endpoint w))
  = tokenCache (snd (getAccessToken cfg up w)).
Proof.
  unfold callConnect, bind.
  destruct (getAccessToken cfg up w) as [[e|tok] w1]; reflexivity.
Qed.

Lemma try_catch_cache block handler w :
  tokenCache (snd (try_catch block handler w)) = tokenCache (snd (block w)).
Proof.
  unfold try_catch. destruct (block w) as [[e|r] w1]; reflexivity.
Qed.

Lemma bind_ret_cache {A B : Type} (m : M A) (f : A -> B) w :
  tokenCache (snd (bind m (fun a => ret (f a)) w)) = tokenCache (snd (m w)).
Proof. unfold bind, ret. destruct (m w) as [[e|a] w1]; reflexivity. Qed.

Lemma getAccessToken_paired cfg up w :
  paired (tokenCache w) -> paired (tokenCache (snd (getAccessToken cfg up w))).
Proof.
  intros Hp. destruct (cacheValid (tokenCache w) (clock w)) eqn:Hv.
  - rewrite getAccessToken_hit by exact Hv. exact Hp.
  - destruct (result (accessTokens up (sent w ++ [tokenRequest cfg])))
      as [e|g] eqn:Hr.
    + rewrite (getAccessToken_miss_fail cfg up w e Hv Hr). exact Hp.
    + rewrite (getAccessToken_miss_ok cfg up w g Hv Hr). right. simpl. eauto.
Qed.

(** The handlers change the cache only as [getAccessToken] does: after
    [/api/tickets], [/api/tickets/active] or [/api/connect/*] the cache is what
    a lone [getAccessToken] would have left, whatever the outcome of the
    resource request, and [/api/health] leaves it alone; so the cache fields
    stay both [null] or both set. *)
Theorem handlers_change_cache_only_by_acquisition
    cfg up parse limit offset path w :
  let after := tokenCache (snd (getAccessToken cfg up w)) in
  tokenCache (snd (tickets cfg up limit offset w)) = after
  /\ tokenCache (snd (ticketsActive cfg up parse w)) = after
  /\ tokenCache (snd (connect cfg up path w)) = after
  /\ tokenCache (snd (health w)) = tokenCache w
  /\ (cacheValid (tokenCache w) (clock w) = true -> after = tokenCache w)
  /\ (paired (tokenCache w) -> paired after).
Proof.
  intros after. subst after. repeat split.
  - unfold tickets. rewrite try_catch_cache, bind_ret_cache.
    apply callConnect_cache.
  - unfold ticketsActive. rewrite try_catch_cache. unfold bind at 1.
    destruct (callConnect cfg up "/service-records/search?limit=100" w)
      as [[e|d] w1] eqn:E.
    + rewrite <- (callConnect_cache cfg up "/service-records/search?limit=100").
      rewrite E. reflexivity.
    + rewrite <- (callConnect_cache cfg up "/service-records/search?limit=100").
      rewrite E. reflexivity.
  - unfold connect. rewrite try_catch_cache, bind_ret_cache.
    apply callConnect_cache.
  - intros Hv. rewrite getAccessToken_hit by exact Hv. reflexivity.
  - apply getAccessToken_paired.
Qed.

(** ** Status filter *)

Lemma filter_complement_length {A : Type} (p : A -> bool) (l : list A) :
  (length (List.filter p l) + length (List.filter (fun x => negb (p x)) l)
   = length l)%nat.
Proof.
  rewrite <- length_app. apply Permutation_length, filter_partition_perm.
Qed.

Lemma filter_none {A : Type} (p q : A -> bool) (l : list A) :
  (forall x, p x = true -> q x = false) ->
  List.filter q (List.filter p l) = [].
Proof.
  intros H. induction l as [|x l IH]; simpl; [reflexivity|].
  destruct (p x) eqn:E; [|exact IH]. simpl. rewrite (H x E). exact IH.
Qed.

(** The open and the closed records split the list: every record is in
    exactly one of the two results, none of the open records is closed and
    conversely, and a filter value other than [open] and [closed] returns
    the list as it is. *)
Theorem filterTicketsByStatus_partition records :
  let opened := filterTicketsByStatus records (Some "open") in
  let closed := filterTicketsByStatus records (Some "closed") in
  (length opened + length closed = length records)%nat
  /\ (forall r, r ∈ records <-> r ∈ opened \/ r ∈ closed)
  /\ filterTicketsByStatus opened (Some "closed") = []
  /\ filterTicketsByStatus closed (Some "open") = []
  /\ (forall statusFilter,
        statusFilter <> Some "open" -> statusFilter <> Some "closed" ->
        filterTicketsByStatus records statusFilter = records).
Proof.
  intros opened closed. subst opened closed.
  unfold filterTicketsByStatus. simpl.
  split; [rewrite Nat.add_comm; apply filter_complement_length|].
  split.
  - intros r. rewrite !list_elem_of_In, !filter_In. split.
    + intros H. destruct (isClosed r); auto.
    + intros [[H _]|[H _]]; exact H.
  - split; [apply filter_none; intros x H; apply negb_true_iff, H|].
    split; [apply filter_none; intros x H; rewrite H; reflexivity|].
    intros statusFilter Ho Hc.
    destruct (negb (Js.truthyStr statusFilter)); [reflexivity|].
    destruct (bool_decide (statusFilter = Some "all")); [reflexivity|].
    rewrite !bool_decide_eq_false_2 by assumption. reflexivity.
Qed.

(** ** The passthrough route *)

Lemma substring_all s : String.substring 0 (String.length s) s = s.
Proof. induction s as [|c s IH]; simpl; [reflexivity|]. rewrite IH. reflexivity. Qed.

Lemma replace_unfold pattern replacement s :
  replace pattern replacement s
  = if String.prefix pattern s then
      replacement +:+ String.substring (String.length pattern)
                        (String.length s - String.length pattern) s
    else
      match s with
      | EmptyString => EmptyString
      | String c s' => String c (replace pattern replacement s')
      end.
Proof. destruct s; reflexivity. Qed.

Lemma prefix_append p rest : String.prefix p (p +:+ rest) = true.
Proof.
  induction p as [|c p IH].
  - destruct rest; reflexivity.
  - change (String c p +:+ rest) with (String c (p +:+ rest)). simpl.
    destruct (Ascii.ascii_dec c c) as [_|Hne]; [exact IH|contradiction].
Qed.

Lemma substring_append p rest :
  String.substring (String.length p)
    (String.length (p +:+ rest) - String.length p) (p +:+ rest)
  = rest.
Proof.
  induction p as [|c p IH].
  - change (EmptyString +:+ rest) with rest. simpl.
    rewrite Nat.sub_0_r. apply substring_all.
  - change (String c p +:+ rest) with (String c (p +:+ rest)). simpl.
    exact IH.
Qed.

(** Removing a pattern from a string that starts with it leaves the rest of
    the string, whatever the rest contains: only the first occurrence is
    replaced. *)
Lemma replace_prefix pattern rest :
  replace pattern "" (pattern +:+ rest) = rest.
Proof.
  rewrite replace_unfold, prefix_append, substring_append. reflexivity.
Qed.

(** With a valid cached token, [/api/connect] followed by any sub-path
    sends one GET to [baseUrl/connect/v1] followed by that sub-path, and
    answers 200 with the upstream body unchanged as [data]. *)
Theorem connect_forwards_subpath cfg up rest w s e d :
  token (tokenCache w) = Some s ->
  s <> "" ->
  expiresAt (tokenCache w) = Some e ->
  clock w < e ->
  let request :=
    Get (baseUrl cfg +:+ "/connect/v1" +:+ rest) ("Bearer " +:+ s) in
  result (resource up (sent w ++ [request])) = inr d ->
  fst (connect cfg up ("/api/connect" +:+ rest) w) = json (Success d)
  /\ sent (snd (connect cfg up ("/api/connect" +:+ rest) w))
     = sent w ++ [request].
Proof.
  intros Hs Hne He Hlt request Hd.
  unfold connect, try_catch, bind. rewrite replace_prefix.
  rewrite (callConnect_hit cfg up rest w s); [|apply cacheValid_spec|exact Hs].
  - unfold resourceRequest. fold request. rewrite Hd. simpl. auto.
  - exists s. rewrite He. auto.
Qed.

Lemma connect_forwards_subpath_witness :
  sent (snd (connect demoConfig (serving (DOther "[]"))
               "/api/connect/end-users?limit=5" (warm "tok-0" 5000 1000)))
  = [ Get "https://itsm.example/connect/v1/end-users?limit=5" "Bearer tok-0" ].
Proof.
  destruct (connect_forwards_subpath demoConfig (serving (DOther "[]"))
              "/end-users?limit=5" (warm "tok-0" 5000 1000) "tok-0" 5000
              (DOther "[]"))
    as (_ & H);
    [reflexivity | discriminate | reflexivity | simpl; lia | reflexivity
    | exact H].
Defined.

(** ** Active tickets without records *)

(** When the record search answers with a body that is not an array, or
    with records that are all closed, [/api/tickets/active] answers 200 with
    zero active tickets and three zero percentages: the body is not treated
    as an error. *)
Theorem ticketsActive_without_active_records cfg up parse w d w' :
  callConnect cfg up "/service-records/search?limit=100" w = (inr d, w') ->
  (exists text, d = DOther text)
  \/ (exists records, d = DArray records
                      /\ Forall (fun r => status r = Some 34) records) ->
  ticketsActive cfg up parse w = (json (Active 0 0 0 0), w').
Proof.
  intros H Hd. unfold ticketsActive, try_catch.
  rewrite (bind_returns _ _ w d w' H). unfold bind, Date_now, ret.
  assert (Hact : List.filter (fun r => negb (isClosed r))
                   match d with DArray rs => rs | DOther _ => [] end = []).
  { destruct Hd as [[text ->]|(records & -> & Hall)]; [reflexivity|].
    clear H. induction Hall as [|r records Hr _ IH]; simpl; [reflexivity|].
    unfold isClosed at 1. rewrite Hr. simpl. exact IH. }
  rewrite Hact. reflexivity.
Qed.

Lemma ticketsActive_without_active_records_witness :
  fst (ticketsActive demoConfig (serving (DOther "maintenance")) noDates
         (coldStart 1000))
  = json (Active 0 0 0 0).
Proof.
  rewrite (ticketsActive_without_active_records demoConfig
             (serving (DOther "maintenance")) noDates (coldStart 1000)
             (DOther "maintenance")
             (snd (callConnect demoConfig (serving (DOther "maintenance"))
                     "/service-records/search?limit=100" (coldStart 1000))));
    [reflexivity | reflexivity | left; eexists; reflexivity].
Defined.

(** ** Strings *)

Example split_runs :
  JsString.split "," "" = [""]
  /\ JsString.split "," "a, b,,c," = ["a"; " b"; ""; "c"; ""]
  /\ JsString.trim "  https://a.example  " = "https://a.example"
  /\ JsString.includes "https://x.sharepoint.com.evil.example" ".sharepoint.com"
     = true.
Proof. repeat split. Qed.



Lemma prefix_spec p s :
  String.prefix p s = true <-> exists rest, s = p +:+ rest.
Proof.
  split.
  - revert s. induction p as [|c p IH]; intros s H.
    + exists s. reflexivity.
    + destruct s as [|c' s]; [discriminate|]. simpl in H.
      destruct (Ascii.ascii_dec c c') as [<-|]; [|discriminate].
      destruct (IH s H) as [rest ->]. exists rest. reflexivity.
  - intros [rest ->]. apply prefix_append.
Qed.

Lemma includes_unfold s pattern :
  JsString.includes s pattern
  = String.prefix pattern s
    || match s with
       | EmptyString => false
       | String _ s' => JsString.includes s' pattern
       end.
Proof. destruct s; reflexivity. Qed.

Lemma includes_spec s pattern :
  JsString.includes s pattern = true
  <-> exists before after, s = before +:+ pattern +:+ after.
Proof.
  split.
  - induction s as [|c s IH]; rewrite includes_unfold; intros H;
      apply orb_true_iff in H; destruct H as [H|H].
    + apply prefix_spec in H. destruct H as [rest ->]. exists "", rest.
      reflexivity.
    + discriminate.
    + apply prefix_spec in H. destruct H as [rest ->]. exists "", rest.
      reflexivity.
    + destruct (IH H) as (before & after & ->).
      exists (String c before), after. reflexivity.
  - intros (before & after & ->).
    induction before as [|c before IH]; rewrite includes_unfold;
      apply orb_true_iff.
    + left. apply (prefix_append pattern after).
    + right. exact IH.
Qed.

Lemma arrayIncludes_spec array s :
  JsString.arrayIncludes array s = true <-> s ∈ array.
Proof.
  unfold JsString.arrayIncludes. rewrite existsb_exists, list_elem_of_In.
  split.
  - intros (x & Hx & E). apply String.eqb_eq in E. subst. exact Hx.
  - intros H. exists s. split; [exact H|apply String.eqb_refl].
Qed.

Section TrimFacts.
Import JsString.









Lemma trimEnd_head c s :
  isWhiteSpace c = false -> exists t, trimEnd (String c s) = String c t.
Proof.
  intros Hc. simpl. destruct (trimEnd s) as [|c' t].
  - rewrite Hc. eauto.
  - eauto.
Qed.

Lemma trimEnd_idempotent s : trimEnd (trimEnd s) = trimEnd s.
Proof.
  induction s as [|c s IH]; [reflexivity|]. simpl.
  destruct (trimEnd s) as [|c' t] eqn:E.
  - destruct (isWhiteSpace c) eqn:Hc; [reflexivity|]. simpl.
    rewrite Hc. reflexivity.
  - simpl in *. rewrite IH. reflexivity.
Qed.

Lemma trimStart_head s :
  trimStart s = ""
  \/ exists c t, trimStart s = String c t /\ isWhiteSpace c = false.
Proof.
  induction s as [|c s IH]; [left; reflexivity|]. simpl.
  destruct (isWhiteSpace c) eqn:Hc; [exact IH|]. right. eauto.
Qed.

Lemma trim_idempotent s : trim (trim s) = trim s.
Proof.
  unfold trim. destruct (trimStart_head s) as [->|(c & t & -> & Hc)].
  - reflexivity.
  - destruct (trimEnd_head c t Hc) as [t' E]. rewrite E.
    simpl trimStart. rewrite Hc. rewrite <- E. apply trimEnd_idempotent.
Qed.

End TrimFacts.

Section SplitFacts.
Import JsString.
Variable separator : ascii.

Lemma lacks_cons c s :
  lacks separator (String c s) <-> c <> separator /\ lacks separator s.
Proof.
  unfold lacks. simpl. split.
  - intros H. inversion H; subst. auto.
  - intros [Hc Hs]. constructor; assumption.
Qed.

Lemma split_nonempty s : split separator s <> [].
Proof.
  destruct s as [|c s]; simpl; [discriminate|].
  destruct (Ascii.eqb c separator); [discriminate|].
  destruct (split separator s); discriminate.
Qed.

Lemma split_lacks s : lacks separator s -> split separator s = [s].
Proof.
  induction s as [|c s IH]; intros H; [reflexivity|].
  apply lacks_cons in H. destruct H as [Hc Hs]. simpl.
  apply Ascii.eqb_neq in Hc. rewrite Hc, (IH Hs). reflexivity.
Qed.

Lemma split_append s rest :
  lacks separator s ->
  split separator (s +:+ String separator rest) = s :: split separator rest.
Proof.
  induction s as [|c s IH]; intros H.
  - change ("" +:+ String separator rest) with (String separator rest).
    simpl. rewrite Ascii.eqb_refl. reflexivity.
  - apply lacks_cons in H. destruct H as [Hc Hs].
    change (String c s +:+ String separator rest)
      with (String c (s +:+ String separator rest)).
    simpl. apply Ascii.eqb_neq in Hc. rewrite Hc, (IH Hs). reflexivity.
Qed.

(** Splitting what [join] built from pieces without the separator gives the
    pieces back. *)
Lemma split_join (pieces : list string) :
  pieces <> [] ->
  Forall (lacks separator) pieces ->
  split separator (String.concat (String separator "") pieces) = pieces.
Proof.
  intros Hne Hall. induction Hall as [|piece pieces Hp Hall IH].
  - contradiction.
  - destruct pieces as [|piece' pieces].
    + simpl. apply split_lacks, Hp.
    + change (String.concat (String separator "") (piece :: piece' :: pieces))
        with (piece +:+ String separator ""
              +:+ String.concat (String separator "") (piece' :: pieces)).
      change (String separator ""
              +:+ String.concat (String separator "") (piece' :: pieces))
        with (String separator
                (String.concat (String separator "") (piece' :: pieces))).
      rewrite (split_append _ _ Hp), IH; [reflexivity|discriminate].
Qed.

End SplitFacts.

(** ** Cross-origin policy *)

Lemma allowed_text env :
  (if Js.truthyStr env then Js.propertyKey env else "") = default "" env.
Proof.
  destruct env as [s|]; [|reflexivity]. simpl.
  destruct (String.eqb_spec s ""); subst; reflexivity.
Qed.

Lemma corsOptions_origin_cases ALLOWED_ORIGINS o :
  o <> "" ->
  corsOptions_origin ALLOWED_ORIGINS (Some o)
  = if JsString.includes o ".sharepoint.com"
       || JsString.startsWith o "http://localhost"
       || JsString.startsWith o "http://127.0.0.1"
       || JsString.arrayIncludes
            (map JsString.trim
               (JsString.split "," (default "" ALLOWED_ORIGINS))) o
    then Allowed
    else Refused "Not allowed by CORS".
Proof.
  intros Hne. unfold corsOptions_origin. rewrite allowed_text. simpl.
  apply String.eqb_neq in Hne. rewrite Hne. reflexivity.
Qed.

Lemma cors_tests_spec ALLOWED_ORIGINS o :
  JsString.includes o ".sharepoint.com"
  || JsString.startsWith o "http://localhost"
  || JsString.startsWith o "http://127.0.0.1"
  || JsString.arrayIncludes
       (map JsString.trim (JsString.split "," (default "" ALLOWED_ORIGINS))) o
  = true
  <-> (exists before after, o = before +:+ ".sharepoint.com" +:+ after)
      \/ (exists rest, o = "http://localhost" +:+ rest)
      \/ (exists rest, o = "http://127.0.0.1" +:+ rest)
      \/ (exists entry,
            entry ∈ JsString.split "," (default "" ALLOWED_ORIGINS)
            /\ JsString.trim entry = o).
Proof.
  rewrite !orb_true_iff, includes_spec.
  unfold JsString.startsWith. rewrite !prefix_spec, arrayIncludes_spec.
  rewrite list_elem_of_fmap. split.
  - intros [[[H|H]|H]|(entry & E & H)]; auto.
    right; right; right. exists entry. auto.
  - intros [H|[H|[H|(entry & H & E)]]]; auto.
    right. exists entry. auto.
Qed.

(** The origin callback allows a request exactly when it carries no origin,
    or its origin contains [.sharepoint.com] anywhere, or starts with
    [http://localhost] or [http://127.0.0.1], or equals an entry of the
    comma-separated [ALLOWED_ORIGINS] once the entry is trimmed; it refuses
    every other origin with the message Not allowed by CORS. *)
Theorem corsOptions_origin_allows ALLOWED_ORIGINS origin :
  (corsOptions_origin ALLOWED_ORIGINS origin = Allowed <->
   origin = None \/ origin = Some ""
   \/ exists o, origin = Some o
        /\ ((exists before after, o = before +:+ ".sharepoint.com" +:+ after)
            \/ (exists rest, o = "http://localhost" +:+ rest)
            \/ (exists rest, o = "http://127.0.0.1" +:+ rest)
            \/ (exists entry,
                  entry ∈ JsString.split "," (default "" ALLOWED_ORIGINS)
                  /\ JsString.trim entry = o)))
  /\ (corsOptions_origin ALLOWED_ORIGINS origin = Allowed
      \/ corsOptions_origin ALLOWED_ORIGINS origin
         = Refused "Not allowed by CORS").
Proof.
  destruct origin as [o|]; [|split; [split; auto|left; reflexivity]].
  destruct (String.eqb_spec o "") as [->|Hne];
    [split; [split; auto|left; reflexivity]|].
  rewrite (corsOptions_origin_cases _ _ Hne).
  pose proof (cors_tests_spec ALLOWED_ORIGINS o) as Htest.
  destruct (_ || _ || _ || _).
  - split; [|auto]. split; [|reflexivity].
    intros _. right; right. exists o. split; [reflexivity|].
    apply Htest. reflexivity.
  - split; [|auto]. split; [discriminate|].
    intros [H|[H|(o' & [= <-] & H)]]; [discriminate|congruence|].
    apply Htest in H. discriminate H.
Qed.

(** An origin listed in [ALLOWED_ORIGINS] is allowed whatever white space
    surrounds its entry: for a list of entries joined by commas, the trimmed
    form of each entry is allowed. *)
Theorem corsOptions_origin_allows_listed entries entry :
  Forall (lacks ",") entries ->
  entry ∈ entries ->
  corsOptions_origin (Some (String.concat "," entries))
    (Some (JsString.trim entry))
  = Allowed.
Proof.
  intros Hall Hin.
  destruct (String.eqb_spec (JsString.trim entry) "") as [E|Hne];
    [rewrite E; reflexivity|].
  rewrite (corsOptions_origin_cases _ _ Hne).
  assert (Htest : forall b : bool, b = true ->
            (if b then Allowed else Refused "Not allowed by CORS") = Allowed)
    by (intros b ->; reflexivity).
  apply Htest, cors_tests_spec.
  right; right; right. exists entry. split; [|reflexivity].
  simpl. rewrite split_join; [exact Hin| |exact Hall].
  intros ->. apply elem_of_nil in Hin. exact Hin.
Qed.

Lemma corsOptions_origin_allows_listed_witness :
  corsOptions_origin
    (Some "https://portal.example , https://intranet.example")
    (Some "https://portal.example")
  = Allowed.
Proof.
  apply (corsOptions_origin_allows_listed
           ["https://portal.example "; " https://intranet.example"]
           "https://portal.example ").
  - repeat constructor; discriminate.
  - left.
Defined.

Example corsOptions_origin_runs :
  corsOptions_origin None (Some "https://tenant.sharepoint.com") = Allowed
  /\ corsOptions_origin None (Some "https://x.sharepoint.com.evil.example")
     = Allowed
  /\ corsOptions_origin None (Some "http://localhost.evil.example") = Allowed
  /\ corsOptions_origin None (Some "https://evil.example")
     = Refused "Not allowed by CORS"
  /\ corsOptions_origin (Some "https://portal.example")
       (Some "https://PORTAL.example")
     = Refused "Not allowed by CORS".
Proof. repeat split. Qed.

(** ** Analytics overview *)

Lemma analyticsOverview_directories status serviceRecords agents endUsers :
  let records :=
    filterTicketsByStatus
      match serviceRecords with DArray rs => rs | DOther _ => [] end
      (Some (default "open" status)) in
  let agentMap :=
    directoryOf match agents with Listed l => l | Unlisted => [] end in
  let endUserMap :=
    directoryOf match endUsers with Listed l => l | Unlisted => [] end in
  Analytics.assigneeDistribution
    (analyticsOverview status serviceRecords agents endUsers)
  = processAssigneeDistribution records agentMap
  /\ Analytics.topAdministrators
       (analyticsOverview status serviceRecords agents endUsers)
     = processTopAdministrators records agentMap
  /\ Analytics.topEndUsers
       (analyticsOverview status serviceRecords agents endUsers)
     = processTopEndUsers records endUserMap
  /\ Summary.total
       (Analytics.summary
          (analyticsOverview status serviceRecords agents endUsers))
     = Z.of_nat (length records).
Proof. repeat split. Qed.

(** In the summary, [open] and [closed] count all fetched records and add up
    to their number, whatever the filter; [total] counts the filtered
    records, so it equals [open] when the [status] parameter is absent or
    [open], equals [closed] when it is [closed], and is the number of all
    records for any other value. *)
Theorem analyticsOverview_summary status serviceRecords agents endUsers :
  let summary :=
    Analytics.summary
      (analyticsOverview status serviceRecords agents endUsers) in
  let allRecords :=
    match serviceRecords with DArray rs => rs | DOther _ => [] end in
  Summary.open summary + Summary.closed summary
  = Z.of_nat (length allRecords)
  /\ (status = None \/ status = Some "open" ->
      Summary.total summary = Summary.open summary)
  /\ (status = Some "closed" ->
      Summary.total summary = Summary.closed summary)
  /\ (forall s, status = Some s -> s <> "open" -> s <> "closed" ->
      Summary.total summary = Z.of_nat (length allRecords)).
Proof.
  intros summary allRecords. subst summary. simpl. fold allRecords.
  split.
  { rewrite <- Nat2Z.inj_add. f_equal.
    rewrite Nat.add_comm. apply filter_complement_length. }
  split; [intros [->| ->]; reflexivity|].
  split; [intros ->; reflexivity|].
  intros s -> Ho Hc. simpl. f_equal. f_equal.
  unfold filterTicketsByStatus.
  destruct (negb (Js.truthyStr (Some s))); [reflexivity|].
  destruct (bool_decide (Some s = Some "all")); [reflexivity|].
  rewrite !bool_decide_eq_false_2 by congruence. reflexivity.
Qed.

Example analyticsOverview_scenario :
  let body :=
    DArray [ withStatus 1; withStatus 34; withStatus 1 ] in
  Analytics.summary (analyticsOverview None body Unlisted Unlisted)
  = Summary.mk 2 2 1
  /\ Analytics.summary (analyticsOverview (Some "closed") body Unlisted Unlisted)
     = Summary.mk 1 2 1
  /\ Analytics.summary (analyticsOverview (Some "") body Unlisted Unlisted)
     = Summary.mk 3 2 1.
Proof. repeat split. Qed.

(** ** Directories *)

Lemma directoryOf_snoc people p :
  directoryOf (people ++ [p])
  = match Person.id p with
    | Some id => <[id := fullName p]> (directoryOf people)
    | None => directoryOf people
    end.
Proof. unfold directoryOf. rewrite foldl_app. reflexivity. Qed.

Lemma directoryOf_absent people (i : Z) :
  Forall (fun q => Person.id q <> Some i) people ->
  directoryOf people !! i = None.
Proof.
  induction people as [|p people IH] using rev_ind; intros H.
  - apply lookup_empty.
  - apply Forall_app in H. destruct H as [Hpeople Hp].
    apply Forall_inv in Hp. rewrite directoryOf_snoc.
    destruct (Person.id p) as [j|]; [|auto].
    rewrite lookup_insert_ne by congruence. auto.
Qed.

Lemma directoryOf_later people after (i : Z) :
  Forall (fun q => Person.id q <> Some i) after ->
  directoryOf (people ++ after) !! i = directoryOf people !! i.
Proof.
  induction after as [|p after IH] using rev_ind; intros H.
  - rewrite app_nil_r. reflexivity.
  - apply Forall_app in H. destruct H as [Hafter Hp].
    apply Forall_inv in Hp. rewrite app_assoc, directoryOf_snoc.
    destruct (Person.id p) as [j|]; [|auto].
    rewrite lookup_insert_ne by congruence. auto.
Qed.

Lemma directoryOf_trimmed people (i : Z) name :
  directoryOf people !! i = Some name -> trimmed name.
Proof.
  induction people as [|p people IH] using rev_ind.
  - intros H. change (directoryOf []) with (∅ : gmap Z string) in H.
    rewrite lookup_empty in H. discriminate H.
  - rewrite directoryOf_snoc. destruct (Person.id p) as [j|]; [|exact IH].
    destruct (decide (j = i)) as [->|Hne].
    + rewrite lookup_insert_eq. intros [= <-]. apply trim_idempotent.
    + rewrite lookup_insert_ne by exact Hne. exact IH.
Qed.

(** The directory maps an identifier to the trimmed full name of the last
    listed person who carries it; an identifier nobody carries is not in the
    directory, and no name in the directory starts or ends with white
    space. *)
Theorem directoryOf_last_entry_wins before p after (i : Z) :
  Person.id p = Some i ->
  Forall (fun q => Person.id q <> Some i) after ->
  directoryOf (before ++ p :: after) !! i = Some (fullName p)
  /\ (forall j, Forall (fun q => Person.id q <> Some j)
                  (before ++ p :: after) ->
                directoryOf (before ++ p :: after) !! j = None)
  /\ (forall j name, directoryOf (before ++ p :: after) !! j = Some name ->
                     trimmed name).
Proof.
  intros Hp Hafter. split; [|split].
  - change (before ++ p :: after) with (before ++ [p] ++ after).
    rewrite app_assoc, (directoryOf_later _ _ _ Hafter), directoryOf_snoc, Hp.
    apply lookup_insert_eq.
  - intros j. apply directoryOf_absent.
  - intros j name. apply directoryOf_trimmed.
Qed.

Lemma directoryOf_last_entry_wins_witness :
  directoryOf [ Person.mk (Some 7) (Text "Ada") (Text "Byron");
                Person.mk (Some 7) (Text " Ada ") (Text "Lovelace  ");
                Person.mk (Some 8) (Text "Alan") (Text "Turing") ] !! 7
  = Some "Ada  Lovelace".
Proof.
  destruct (directoryOf_last_entry_wins
              [ Person.mk (Some 7) (Text "Ada") (Text "Byron") ]
              (Person.mk (Some 7) (Text " Ada ") (Text "Lovelace  "))
              [ Person.mk (Some 8) (Text "Alan") (Text "Turing") ] 7)
    as (H & _); [reflexivity | repeat constructor; discriminate | exact H].
Defined.

(** ** Records that no directory resolves *)

Lemma tally_one_name (A : Type) (l : list A) (k : string) (m : Z) :
  String.eqb k "__proto__" = false ->
  foldl increment [(k, Js.Num m)] ((fun _ => k) <$> l)
  = [(k, Js.Num (m + Z.of_nat (length l)))].
Proof.
  intros Hk. revert m. induction l as [|x l IH]; intros m.
  - simpl. rewrite Z.add_0_r. reflexivity.
  - cbn [fmap list_fmap foldl].
    assert (Hstep : increment [(k, Js.Num m)] k = [(k, Js.Num (m + 1))]).
    { unfold increment, Js.set, Js.get. rewrite Hk. simpl.
      rewrite String.eqb_refl. unfold Js.orZeroPlusOne, Js.truthy.
      destruct (Z.eqb_spec m 0) as [->|]; reflexivity. }
    rewrite Hstep, IH. simpl length. do 3 f_equal. lia.
Qed.

Lemma assigneeDistribution_all_unassigned records agentMap :
  Forall (fun r => assigneeName agentMap r = "Unassigned") records ->
  processAssigneeDistribution records agentMap
  = match records with
    | [] => []
    | _ :: _ => [ ChartEntry.mk "Unassigned"
                    (Js.Num (Z.of_nat (length records))) ]
    end.
Proof.
  intros Hall. rewrite assigneeDistribution_tally.
  assert (Hnames : assigneeName agentMap <$> records
                   = (fun _ => "Unassigned") <$> records).
  { induction Hall as [|r records Hr _ IH]; [reflexivity|].
    cbn [fmap list_fmap]. rewrite Hr. f_equal. exact IH. }
  rewrite Hnames. destruct records as [|r records]; [reflexivity|].
  cbn [fmap list_fmap foldl].
  change (increment [] "Unassigned") with [("Unassigned", Js.Num 1)].
  rewrite (tally_one_name _ records "Unassigned" 1 eq_refl).
  simpl length. replace (1 + Z.of_nat (length records))
    with (Z.of_nat (S (length records))) by lia.
  reflexivity.
Qed.

Lemma topAdministrators_none_resolved records agentMap :
  Forall (fun r => resolves agentMap (assignee r) = false) records ->
  processTopAdministrators records agentMap = [].
Proof.
  intros Hall. unfold processTopAdministrators. rewrite foldl_increment_if.
  assert (Hnone : List.filter
                    (fun r => Js.truthyNum (assignee r)
                              && Js.truthyStr (byId agentMap (assignee r)))
                    records = []).
  { induction Hall as [|r records Hr _ IH]; [reflexivity|].
    simpl. unfold resolves in Hr. rewrite Hr. exact IH. }
  rewrite Hnone. reflexivity.
Qed.

(** When the agents endpoint answers with a body that has no [data], as a
    bare array has none, the agent directory is empty: the assignee
    distribution is the single entry Unassigned with the number of filtered
    records (or empty when there are none), and the top-administrators
    ranking is empty. *)
Theorem analyticsOverview_without_agent_data status serviceRecords endUsers :
  let analytics := analyticsOverview status serviceRecords Unlisted endUsers in
  let total := Summary.total (Analytics.summary analytics) in
  Analytics.assigneeDistribution analytics
  = (if total =? 0 then []
     else [ ChartEntry.mk "Unassigned" (Js.Num total) ])
  /\ Analytics.topAdministrators analytics = [].
Proof.
  intros analytics total. subst analytics total.
  destruct (analyticsOverview_directories status serviceRecords Unlisted
              endUsers) as (-> & -> & _ & ->).
  set (records := filterTicketsByStatus _ _).
  change (directoryOf []) with (∅ : gmap Z string).
  split.
  - rewrite assigneeDistribution_all_unassigned.
    + destruct records; reflexivity.
    + apply Forall_forall. intros r _. unfold assigneeName.
      destruct (assignee r); simpl; [rewrite lookup_empty|];
        rewrite ?andb_false_r; reflexivity.
  - apply topAdministrators_none_resolved, Forall_forall. intros r _.
    unfold resolves. destruct (assignee r); simpl; [rewrite lookup_empty|];
      rewrite ?andb_false_r; reflexivity.
Qed.




Example analyticsOverview_missing_names :
  Analytics.assigneeDistribution
    (analyticsOverview None (DArray [assignedTo (Some 7)])
       (Listed [ Person.mk (Some 7) Missing Null ]) Unlisted)
  = [ ChartEntry.mk "undefined null" (Js.Num 1) ].
Proof. reflexivity. Qed.
